(** * Tic-Tac-Toe: the minimax engine and its game adapter

    A shallow embedding of [src/game_functions.py] ([check_winner]),
    [src/minimax_lib.py] ([minimax]) and [src/tictactoe_adapter.py]
    (class [TicTacToeAdapter]), followed by the properties of these
    functions.

    Conventions of the embedding:
    - Python [int] is [Z]; a board ([list[str]]) is [list string];
    - a call either returns, raises or does not return: type [result];
    - [float("-inf")] and [float("inf")] together with the integer scores
      form the type [score];
    - the recursion of [minimax] is bounded by a [fuel] argument, its
      [depth] stays the integer of the source. *)

From stdpp Require Import base list strings pretty gmap.
From Stdlib Require Import ZArith Lia Sorted.

Local Open Scope Z_scope.

(** ** Outcomes of a call *)

Inductive exn : Set :=
  | IndexError.

Inductive result (A : Type) : Type :=
  | Ok (a : A)
  | Raise (e : exn)
  | Diverge.

Arguments Ok {A} a.
Arguments Raise {A} e.
Arguments Diverge {A}.

Definition bind {A B : Type} (m : result A) (k : A → result B) : result B :=
  match m with
  | Ok a => k a
  | Raise e => Raise e
  | Diverge => Diverge
  end.

Notation "'let!' x ':=' m 'in' k" := (bind m (fun x => k))
  (at level 10, x name, m at level 100, k at level 200, only parsing).

(** ** Python lists and ranges *)

(** [range(lo, hi)]. *)
Definition range (lo hi : Z) : list Z := seqZ lo (hi - lo).

(** [enumerate(l)]. *)
Definition enumerate {A : Type} (l : list A) : list (Z * A) :=
  zip (range 0 (Z.of_nat (length l))) l.

(** The position an index denotes in a list of length [n]: a negative index
    counts from the end, and an index outside [-n .. n-1] denotes none. *)
Definition norm_index (n : nat) (i : Z) : option nat :=
  let j := if i <? 0 then i + Z.of_nat n else i in
  if (0 <=? j) && (j <? Z.of_nat n) then Some (Z.to_nat j) else None.

(** [l[i]]. *)
Definition getitem {A : Type} (l : list A) (i : Z) : result A :=
  match norm_index (length l) i with
  | Some j => match l !! j with Some x => Ok x | None => Raise IndexError end
  | None => Raise IndexError
  end.

(** [l[i] = x], on a list value. *)
Definition setitem {A : Type} (l : list A) (i : Z) (x : A) : result (list A) :=
  match norm_index (length l) i with
  | Some j => Ok (<[j := x]> l)
  | None => Raise IndexError
  end.

(** ** game_functions.py *)

(** [all(board[i] == player for i in idx)]: the generator is consumed up to
    its first false element. *)
Fixpoint all_marked (board : list string) (player : string) (idx : list Z)
  : result bool :=
  match idx with
  | [] => Ok true
  | i :: rest =>
      let! v := getitem board i in
      if bool_decide (v = player) then all_marked board player rest
      else Ok false
  end.

(** [for a in l: if test(a): return True]; [Ok false] is the loop running
    to its end. *)
Fixpoint scan {A : Type} (test : A → result bool) (l : list A) : result bool :=
  match l with
  | [] => Ok false
  | a :: rest =>
      let! b := test a in
      if b then Ok true else scan test rest
  end.

Definition check_winner (board : list string) (player : string)
    (size to_win : Z) : result bool :=
  (* Rows *)
  let! won := scan (fun r => scan (fun c =>
           all_marked board player
             (map (fun k => r * size + c + k) (range 0 to_win)))
           (range 0 (size - to_win + 1)))
         (range 0 size) in
  if won then Ok true else
  (* Columns *)
  let! won := scan (fun c => scan (fun r =>
           all_marked board player
             (map (fun k => (r + k) * size + c) (range 0 to_win)))
           (range 0 (size - to_win + 1)))
         (range 0 size) in
  if won then Ok true else
  (* Diagonals *)
  let! won := scan (fun r => scan (fun c =>
           all_marked board player
             (map (fun k => (r + k) * size + (c + k)) (range 0 to_win)))
           (range 0 (size - to_win + 1)))
         (range 0 (size - to_win + 1)) in
  if won then Ok true else
  (* Anti-diagonals *)
  let! won := scan (fun r => scan (fun c =>
           all_marked board player
             (map (fun k => (r + k) * size + (c - k)) (range 0 to_win)))
           (range (to_win - 1) size))
         (range 0 (size - to_win + 1)) in
  if won then Ok true else
  Ok false.

(** ** minimax_lib.py *)

(** Scores: the integers of [evaluate] and the two float sentinels. *)
Inductive score : Set :=
  | NegInf
  | Fin (z : Z)
  | PosInf.

(** [a > b]. *)
Definition score_gt (a b : score) : bool :=
  match a, b with
  | NegInf, _ => false
  | Fin _, NegInf => true
  | Fin x, Fin y => y <? x
  | Fin _, PosInf => false
  | PosInf, PosInf => false
  | PosInf, _ => true
  end.

(** [a < b]. *)
Definition score_lt (a b : score) : bool := score_gt b a.

(** The test that replaces the best move: [score > best_score] in the
    maximizing branch, [score < best_score] in the minimizing one. *)
Definition better (maximizing : bool) (a b : score) : bool :=
  if maximizing then score_gt a b else score_lt a b.

(** The initial [best_score] of a branch. *)
Definition sentinel (maximizing : bool) : score :=
  if maximizing then NegInf else PosInf.

Section Minimax.
Context {State Move : Type}.
Variable get_moves : State → bool → result (list Move).
Variable apply_move : State → Move → bool → result State.
Variable evaluate : State → result Z.
Variable is_terminal : State → result bool.

(** The [for move in ...] loop of either branch: [maximizing] is the flag
    handed to [apply_move] and selects the comparison; [rec] is the
    recursive call on the new state. *)
Fixpoint search (maximizing : bool)
    (rec : State → result (score * option Move)) (state : State)
    (moves : list Move) (best_score : score) (best_move : option Move)
  : result (score * option Move) :=
  match moves with
  | [] => Ok (best_score, best_move)
  | move :: rest =>
      let! new_state := apply_move state move maximizing in
      let! r := rec new_state in
      if better maximizing (fst r) best_score
      then search maximizing rec state rest (fst r) (Some move)
      else search maximizing rec state rest best_score best_move
  end.

Fixpoint minimax (fuel : nat) (state : State) (depth : Z)
    (maximizing_player : bool) : result (score * option Move) :=
  match fuel with
  | O => Diverge
  | S fuel' =>
      let! stop := (if depth =? 0 then Ok true else is_terminal state) in
      if stop then
        let! v := evaluate state in
        Ok (Fin v, None)
      else if maximizing_player then
        let! moves := get_moves state true in
        search true (fun s => minimax fuel' s (depth - 1) false)
               state moves (sentinel true) None
      else
        let! moves := get_moves state false in
        search false (fun s => minimax fuel' s (depth - 1) true)
               state moves (sentinel false) None
  end.

(** The minimax score of a move: the score of the search below it. *)
Definition child_score (fuel : nat) (state : State) (depth : Z)
    (maximizing : bool) (move : Move) : result score :=
  let! new_state := apply_move state move maximizing in
  let! r := minimax fuel new_state (depth - 1) (negb maximizing) in
  Ok (fst r).
End Minimax.

(** ** tictactoe_adapter.py *)

Record TicTacToeAdapter : Set := {
  size : Z;
  to_win : Z;
  human : string;
  computer : string
}.

(** [v in (self.human, self.computer)]. *)
Definition is_mark (self : TicTacToeAdapter) (v : string) : bool :=
  bool_decide (v = human self) || bool_decide (v = computer self).

Definition get_moves (self : TicTacToeAdapter) (state : list string)
    (maximizing : bool) : list Z :=
  map fst
    (List.filter (fun iv => negb (is_mark self (snd iv))) (enumerate state)).

Definition apply_move (self : TicTacToeAdapter) (state : list string)
    (move : Z) (maximizing : bool) : result (list string) :=
  setitem state move (if maximizing then computer self else human self).

(** The board as an object: [state.copy()] allocates a list that no
    reference of the caller denotes, and [new_state[move] = ...] updates
    that list in place. A [store] maps references to the lists they denote;
    the references a program holds always denote a list. *)
Abbreviation loc := positive (only parsing).
Abbreviation store := (gmap positive (list string)) (only parsing).

Definition list_copy (h : store) (l : loc) : store * loc :=
  let l' := fresh (dom h) in
  (<[l' := h !!! l]> h, l').

Definition list_setitem (h : store) (l : loc) (i : Z) (x : string)
  : result store :=
  let! v := setitem (h !!! l) i x in
  Ok (<[l := v]> h).

Definition apply_move_ref (self : TicTacToeAdapter) (h : store) (state : loc)
    (move : Z) (maximizing : bool) : result (store * loc) :=
  let (h1, new_state) := list_copy h state in
  let! h2 := list_setitem h1 new_state move
               (if maximizing then computer self else human self) in
  Ok (h2, new_state).

(** The four loops of [generate_lines]. *)
Definition row_lines (N K : Z) : list (list Z) :=
  flat_map (fun r => map (fun c =>
      map (fun i => r * N + c + i) (range 0 K))
    (range 0 (N - K + 1))) (range 0 N).

Definition col_lines (N K : Z) : list (list Z) :=
  flat_map (fun c => map (fun r =>
      map (fun i => (r + i) * N + c) (range 0 K))
    (range 0 (N - K + 1))) (range 0 N).

Definition diag_lines (N K : Z) : list (list Z) :=
  flat_map (fun r => map (fun c =>
      map (fun i => (r + i) * N + (c + i)) (range 0 K))
    (range 0 (N - K + 1))) (range 0 (N - K + 1)).

Definition anti_lines (N K : Z) : list (list Z) :=
  flat_map (fun r => map (fun c =>
      map (fun i => (r + i) * N + (c - i)) (range 0 K))
    (range (K - 1) N)) (range 0 (N - K + 1)).

Definition generate_lines (self : TicTacToeAdapter) : list (list Z) :=
  let N := size self in
  let K := to_win self in
  row_lines N K ++ col_lines N K ++ diag_lines N K ++ anti_lines N K.

(** [sum(1 for i in line if state[i] == mark)]. *)
Fixpoint count_marked (state : list string) (mark : string) (line : list Z)
  : result Z :=
  match line with
  | [] => Ok 0
  | i :: rest =>
      let! v := getitem state i in
      let! n := count_marked state mark rest in
      Ok ((if bool_decide (v = mark) then 1 else 0) + n)
  end.

(** The [for line in lines] loop of [evaluate]. *)
Fixpoint score_lines (self : TicTacToeAdapter) (state : list string)
    (lines : list (list Z)) (score : Z) : result Z :=
  match lines with
  | [] => Ok score
  | line :: rest =>
      let! ai_count := count_marked state (computer self) line in
      let! human_count := count_marked state (human self) line in
      if (human_count =? 0) && (0 <? ai_count) then
        score_lines self state rest (score + ai_count)
      else if (ai_count =? 0) && (0 <? human_count) then
        score_lines self state rest (score - human_count)
      else score_lines self state rest score
  end.

Definition evaluate (self : TicTacToeAdapter) (state : list string)
  : result Z :=
  let! won := check_winner state (computer self) (size self) (to_win self) in
  if won then Ok 100 else
  let! won := check_winner state (human self) (size self) (to_win self) in
  if won then Ok (-100) else
  score_lines self state (generate_lines self) 0.

Definition is_terminal (self : TicTacToeAdapter) (state : list string)
  : result bool :=
  let! won := check_winner state (human self) (size self) (to_win self) in
  if won then Ok true else
  let! won := check_winner state (computer self) (size self) (to_win self) in
  if won then Ok true else
  Ok (forallb (is_mark self) state).

(** [minimax] with the four methods of the adapter as its callbacks. *)
Definition minimax_of (self : TicTacToeAdapter) (fuel : nat)
    (state : list string) (depth : Z) (maximizing_player : bool)
  : result (score * option Z) :=
  minimax (fun s m => Ok (get_moves self s m)) (apply_move self)
          (evaluate self) (is_terminal self)
          fuel state depth maximizing_player.

(** The minimax score of a move on a board: [child_score] with the
    methods of the adapter. *)
Definition move_score (self : TicTacToeAdapter) (fuel : nat)
    (state : list string) (depth : Z) (maximizing : bool) (move : Z)
  : result score :=
  child_score (fun s m => Ok (get_moves self s m)) (apply_move self)
              (evaluate self) (is_terminal self)
              fuel state depth maximizing move.

Definition best_move (fuel : nat) (self : TicTacToeAdapter)
    (board : list string) (depth : Z) : result (option Z) :=
  let! r := minimax_of self fuel board depth true in
  Ok (snd r).

(** The game [main.py] plays on a 3x3 board, and its initial board. *)
Definition ttt : TicTacToeAdapter :=
  {| size := 3; to_win := 3; human := "X"; computer := "O" |}.

Definition create_board (size : Z) : list string :=
  map (fun i => pretty (i + 1)) (range 0 (size * size)).

(** The computer to move with two winning cells, 2 and 7. *)
Definition two_wins : list string :=
  ["O"; "O"; "3"; "4"; "O"; "X"; "X"; "8"; "X"]%string.

(** A full board without a winner. *)
Definition drawn : list string :=
  ["X"; "O"; "X"; "X"; "O"; "O"; "O"; "X"; "X"]%string.

(** A game whose only state is not terminal and has no move. *)
Definition stuck_get_moves (state : unit) (maximizing : bool)
  : result (list unit) := Ok [].
Definition stuck_apply_move (state move : unit) (maximizing : bool)
  : result unit := Ok tt.
Definition stuck_evaluate (state : unit) : result Z := Ok 7.
Definition stuck_is_terminal (state : unit) : result bool := Ok false.

(** A store with one object, the initial 3x3 board. *)
Definition one_board : store := {[1%positive := create_board 3]}.

(** ** Vocabulary of the properties *)

(** Cell [i] of [board] holds [mark]. *)
Definition holds (board : list string) (mark : string) (i : Z) : Prop :=
  board !! Z.to_nat i = Some mark.

(** Every cell of [line] holds [mark]: a completed line. *)
Definition completed (board : list string) (mark : string) (line : list Z)
  : Prop :=
  ∀ i, In i line → holds board mark i.

(** The mark [apply_move] writes. *)
Definition mover (self : TicTacToeAdapter) (maximizing : bool) : string :=
  if maximizing then computer self else human self.

(** The number of cells of [line] that hold [mark]. *)
Definition marks_in (state : list string) (mark : string) (line : list Z)
  : Z :=
  Z.of_nat (length (List.filter
    (fun i => bool_decide (state !! Z.to_nat i = Some mark)) line)).

(** The heuristic as the specification words it: a line with at least one
    computer mark and no human mark adds its computer marks, a line with at
    least one human mark and no computer mark subtracts its human marks,
    and a mixed or empty line contributes zero. *)
Definition line_value (self : TicTacToeAdapter) (state : list string)
    (line : list Z) : Z :=
  let ai := marks_in state (computer self) line in
  let hu := marks_in state (human self) line in
  if bool_decide (1 ≤ ai ∧ hu = 0) then ai
  else if bool_decide (1 ≤ hu ∧ ai = 0) then - hu
  else 0.

Definition heuristic (self : TicTacToeAdapter) (state : list string) : Z :=
  foldr (fun line total => line_value self state line + total) 0
        (generate_lines self).

(** The computer holds two cells of the top row, the human one cell
    elsewhere. *)
Definition live_pair : list string :=
  ["O"; "O"; "3"; "X"; "5"; "6"; "7"; "8"; "9"]%string.

(** A board no game reaches: both players have a completed row. *)
Definition both_rows : list string :=
  ["X"; "X"; "X"; "O"; "O"; "O"; "7"; "8"; "9"]%string.

(** The adapter of the other side: the two marks exchanged. *)
Definition swap_roles (self : TicTacToeAdapter) : TicTacToeAdapter :=
  {| size := size self; to_win := to_win self;
     human := computer self; computer := human self |}.

(** The bound on a heuristic score: [to_win - 1] marks for each line. *)
Definition heuristic_bound (self : TicTacToeAdapter) : Z :=
  let N := size self in
  let K := to_win self in
  (K - 1) * (2 * N * (N - K + 1) + 2 * (N - K + 1) ^ 2).

(** A string of decimal digits only, as the labels of [create_board]
    are. *)
Definition is_digit (c : Ascii.ascii) : bool :=
  (48 <=? Ascii.nat_of_ascii c)%nat && (Ascii.nat_of_ascii c <=? 57)%nat.

Fixpoint all_digits (s : string) : bool :=
  match s with
  | EmptyString => true
  | String c rest => is_digit c && all_digits rest
  end.

(** ** game_functions.py and main.py: the game loops

    The loops read the terminal and draw random numbers. An input line is
    represented by what [str.isdigit] and [int] make of it, the random
    generator by the positions it picks; the text printed is left out,
    only the message that ends a game is kept as its [outcome]. *)

(** [random.choice(seq)]: [IndexError] on an empty sequence, else the
    element at the position the generator draws below [len(seq)]. *)
Definition choice {A : Type} (pick : nat) (seq : list A) : result A :=
  match seq with
  | [] => Raise IndexError
  | _ :: _ =>
      match seq !! (pick mod length seq)%nat with
      | Some x => Ok x
      | None => Raise IndexError
      end
  end.

Definition get_computer_move (pick : nat) (board : list string) : result Z :=
  let free_spots :=
    map fst
      (List.filter
         (fun iv => negb (bool_decide (snd iv = "X"%string)
                          || bool_decide (snd iv = "O"%string)))
         (enumerate board)) in
  choice pick free_spots.

(** An input line, by what the loops ask of it: [move.isdigit()] and, when
    that holds, [int(move)], which returns a natural number or, for digits
    that are not decimal (a superscript two, say), raises [ValueError]. *)
Inductive line : Set :=
  | NotDigits
  | Number (n : N)
  | NotDecimal.

(** What a function that reads the terminal can raise: an exception of the
    core, the [EOFError] of [input] at the end of the input, or a
    [ValueError]. *)
Inductive error : Set :=
  | Builtin (e : exn)
  | EOFError
  | ValueError.

(** The outcome of such a function: its value and the lines left unread,
    an exception, or no return. *)
Inductive run (A : Type) : Type :=
  | Returns (a : A) (unread : list line)
  | Fails (e : error)
  | Hangs.

Arguments Returns {A} a unread.
Arguments Fails {A} e.
Arguments Hangs {A}.

Definition io (A : Type) : Type := list line → run A.

Definition io_ret {A : Type} (a : A) : io A := fun inputs => Returns a inputs.

Definition io_bind {A B : Type} (m : io A) (k : A → io B) : io B :=
  fun inputs =>
    match m inputs with
    | Returns a unread => k a unread
    | Fails e => Fails e
    | Hangs => Hangs
    end.

(** A call that reads no input. *)
Definition lift {A : Type} (r : result A) : io A :=
  fun inputs =>
    match r with
    | Ok a => Returns a inputs
    | Raise e => Fails (Builtin e)
    | Diverge => Hangs
    end.

Definition io_fail {A : Type} (e : error) : io A := fun _ => Fails e.

Notation "'let*' x ':=' m 'in' k" := (io_bind m (fun x => k))
  (at level 10, x name, m at level 100, k at level 200, only parsing).

(** [range(lo, hi, step)]; a step of zero raises [ValueError]. *)
Definition range_step (lo hi step : Z) : io (list Z) :=
  if step =? 0 then io_fail ValueError
  else if 0 <? step then
    io_ret (map (fun k => lo + k * step)
                (range 0 ((hi - lo + step - 1) / step)))
  else
    io_ret (map (fun k => lo + k * step)
                (range 0 ((lo - hi - step - 1) / (- step)))).

(** [for a in l: body(a)]. *)
Fixpoint for_each {A : Type} (body : A → result unit) (l : list A)
  : result unit :=
  match l with
  | [] => Ok tt
  | a :: rest => let! _ := body a in for_each body rest
  end.

(** [print_board]: the cells it reads, row by row; the text is left
    out. *)
Definition print_board (board : list string) (size : Z) : io unit :=
  let* rows := range_step 0 (size * size) size in
  lift (for_each (fun row =>
          for_each (fun col =>
            let! raw := getitem board (row + col) in Ok tt)
            (range 0 size))
          rows).

Definition TO_WIN : Z := 3.

Fixpoint get_player_move (board : list string) (player : string) (size : Z)
    (inputs : list line) : run Z :=
  let max_num := size * size in
  match inputs with
  | [] => Fails EOFError
  | move :: rest =>
      match move with
      | NotDigits => get_player_move board player size rest
      | NotDecimal => Fails ValueError
      | Number n =>
          if negb ((1 <=? Z.of_N n) && (Z.of_N n <? max_num + 1)) then
            get_player_move board player size rest
          else
            let idx := Z.of_N n - 1 in
            match getitem board idx with
            | Ok v =>
                if bool_decide (v = "X"%string) || bool_decide (v = "O"%string)
                then get_player_move board player size rest
                else Returns idx rest
            | Raise e => Fails (Builtin e)
            | Diverge => Hangs
            end
      end
  end.

(** ** main.py *)

(** The message that ends a game: a win of the player with the given mark
    (in [singleplayer], "You win" for "X" and "AI wins" for "O"), or a
    draw. *)
Inductive outcome : Set :=
  | Wins (player : string)
  | Draw.

(** The loop of [multiplayer], over the turns left. *)
Fixpoint multiplayer_loop (size : Z) (turns : list Z) (board : list string)
    (current_player : string) : io (list string * outcome) :=
  match turns with
  | [] =>
      let* _ := print_board board size in
      io_ret (board, Draw)
  | _ :: turns' =>
      let* _ := print_board board size in
      let* idx := get_player_move board current_player size in
      let* board := lift (setitem board idx current_player) in
      let* won := lift (check_winner board current_player size TO_WIN) in
      if won then
        let* _ := print_board board size in
        io_ret (board, Wins current_player)
      else
        multiplayer_loop size turns' board
          (if bool_decide (current_player = "X"%string) then "O"%string
           else "X"%string)
  end.

Definition multiplayer (size : Z) : io (list string * outcome) :=
  multiplayer_loop size (range 0 (size * size)) (create_board size) "X".

(** The loop of [singleplayer], over the turns left; [fuel] bounds each
    search and [pick] is what the random generator draws at a turn. The
    locals [human] and [computer] of the source are [human_] and
    [computer_] here. *)
Fixpoint singleplayer_loop (fuel : nat) (pick : Z → nat)
    (ai : TicTacToeAdapter) (size depth : Z) (human_ computer_ : string)
    (turns : list Z) (board : list string) : io (list string * outcome) :=
  match turns with
  | [] =>
      let* _ := print_board board size in
      io_ret (board, Draw)
  | turn :: turns' =>
      let* _ := print_board board size in
      if turn mod 2 =? 0 then
        let* idx := get_player_move board human_ size in
        let* board := lift (setitem board idx human_) in
        let* won := lift (check_winner board human_ size TO_WIN) in
        if won then
          let* _ := print_board board size in
          io_ret (board, Wins human_)
        else
          singleplayer_loop fuel pick ai size depth human_ computer_
            turns' board
      else
        let* idx :=
          (if depth =? 0 then lift (get_computer_move (pick turn) board)
           else
             let* idx := lift (best_move fuel ai board depth) in
             match idx with
             | None => lift (get_computer_move (pick turn) board)
             | Some idx => io_ret idx
             end) in
        let* board := lift (setitem board idx (computer ai)) in
        let* won := lift (check_winner board computer_ size TO_WIN) in
        if won then
          let* _ := print_board board size in
          io_ret (board, Wins computer_)
        else
          singleplayer_loop fuel pick ai size depth human_ computer_
            turns' board
  end.

Definition singleplayer (fuel : nat) (pick : Z → nat) (size depth : Z)
  : io (list string * outcome) :=
  let board := create_board size in
  let human_ := "X"%string in
  let computer_ := "O"%string in
  let depth :=
    if size <=? 3 then size * size
    else if size <=? 5 then 4
    else if size <=? 7 then 3
    else 2 in
  let ai := {| size := size; to_win := TO_WIN;
               human := human_; computer := computer_ |} in
  singleplayer_loop fuel pick ai size depth human_ computer_
    (range 0 (size * size)) board.

(** The adapter [singleplayer] builds: marks "X" and "O", a run of
    [TO_WIN]. *)
Definition xo (size : Z) : TicTacToeAdapter :=
  {| size := size; to_win := TO_WIN; human := "X"; computer := "O" |}.

(** The number of cells of a board that hold [mark]. *)
Definition count_mark (mark : string) (board : list string) : nat :=
  length (List.filter (fun v => bool_decide (v = mark)) board).

(** The player of turn [t]: "X" plays the even turns. *)
Definition to_move (t : nat) : string :=
  if Nat.even t then "X"%string else "O"%string.

(** A board after [t] turns: [size * size] cells, [t] of them marked, the
    marks of "X" and "O" alternating. *)
Definition position (size : Z) (t : nat) (board : list string) : Prop :=
  Z.of_nat (length board) = size * size ∧
  Z.of_nat (length (get_moves (xo size) board true)) + Z.of_nat t
    = size * size ∧
  (count_mark "X" board + count_mark "O" board = t)%nat ∧
  count_mark "X" board =
    (count_mark "O" board + (if Nat.even t then 0 else 1))%nat.

(** A position nobody has won. *)
Definition in_play (size : Z) (t : nat) (board : list string) : Prop :=
  position size t board ∧
  check_winner board "X" size TO_WIN = Ok false ∧
  check_winner board "O" size TO_WIN = Ok false.

(** What a finished game leaves: a board of [size * size] cells on which
    "X" has as many marks as "O" or one more; after a win, a completed
    line of the winner, who moved last, and none of the other player;
    after a draw, no free cell and no completed line. *)
Definition game_over (size : Z) (end_ : list string * outcome) : Prop :=
  let board := fst end_ in
  Z.of_nat (length board) = size * size ∧
  match snd end_ with
  | Wins player =>
      (player = "X"%string ∧
       count_mark "X" board = S (count_mark "O" board) ∧
       check_winner board "O" size TO_WIN = Ok false ∨
       player = "O"%string ∧
       count_mark "X" board = count_mark "O" board ∧
       check_winner board "X" size TO_WIN = Ok false) ∧
      check_winner board player size TO_WIN = Ok true
  | Draw =>
      get_moves (xo size) board true = [] ∧
      (count_mark "X" board = count_mark "O" board ∨
       count_mark "X" board = S (count_mark "O" board)) ∧
      check_winner board "X" size TO_WIN = Ok false ∧
      check_winner board "O" size TO_WIN = Ok false
  end.

(** A line as the specification words it. Cell [(row, col)] of an [N] x [N]
    board has index [row * N + col]; a run is the ordered list of the [K]
    cells met from a cell [(row, col)] in a direction [(drow, dcol)]; a
    line of that direction is a run all of whose cells are on the board.
    Rows run in direction [(0, 1)], columns in [(1, 0)], diagonals in
    [(1, 1)] and anti-diagonals in [(1, -1)]. *)
Definition cell_index (N row col : Z) : Z := row * N + col.

Definition run_cells (N K row col drow dcol : Z) : list Z :=
  map (fun i => cell_index N (row + i * drow) (col + i * dcol)) (range 0 K).

Definition is_run (N K drow dcol : Z) (line : list Z) : Prop :=
  ∃ row col,
    (∀ i, 0 ≤ i < K →
          0 ≤ row + i * drow < N ∧ 0 ≤ col + i * dcol < N) ∧
    line = run_cells N K row col drow dcol.

(** * Properties *)

(** ** The result monad *)

Lemma bind_Ok {A B} (m : result A) (k : A → result B) (b : B) :
  bind m k = Ok b → ∃ a, m = Ok a ∧ k a = Ok b.
Proof. destruct m; simpl; intros; try discriminate; eauto. Qed.

Lemma bind_bool_id (m : result bool) :
  (let! b := m in if b then Ok true else Ok false) = m.
Proof. destruct m as [[]| |]; reflexivity. Qed.

(** ** Ranges and indexing *)

Lemma in_range (lo hi x : Z) : In x (range lo hi) ↔ lo ≤ x < hi.
Proof. unfold range. rewrite <- list_elem_of_In, elem_of_seqZ. lia. Qed.

Lemma length_range (lo hi : Z) : length (range lo hi) = Z.to_nat (hi - lo).
Proof. unfold range. apply length_seqZ. Qed.

Lemma norm_index_inside (n : nat) (i : Z) :
  0 ≤ i < Z.of_nat n → norm_index n i = Some (Z.to_nat i).
Proof.
  intros Hi. unfold norm_index.
  destruct (Z.ltb_spec i 0); [lia|].
  destruct (Z.leb_spec 0 i); [|lia].
  destruct (Z.ltb_spec i (Z.of_nat n)); [reflexivity|lia].
Qed.

Lemma norm_index_bound (n : nat) (i : Z) (j : nat) :
  norm_index n i = Some j → (j < n)%nat.
Proof.
  unfold norm_index.
  destruct (i <? 0);
    match goal with |- context [(0 <=? ?a) && (?a <? ?b)] =>
      destruct (Z.leb_spec 0 a); destruct (Z.ltb_spec a b) end;
    simpl; intros [= <-]; lia.
Qed.

Lemma getitem_inside {A} (l : list A) (i : Z) :
  0 ≤ i < Z.of_nat (length l) →
  ∃ x, l !! Z.to_nat i = Some x ∧ getitem l i = Ok x.
Proof.
  intros Hi. unfold getitem. rewrite norm_index_inside by done.
  destruct (lookup_lt_is_Some_2 l (Z.to_nat i)) as [x Hx]; [lia|].
  exists x. by rewrite Hx.
Qed.

(** ** The scan of [check_winner] and the lines of [generate_lines] *)

Lemma scan_app {A} (test : A → result bool) (l1 l2 : list A) :
  scan test (l1 ++ l2) =
  (let! won := scan test l1 in if won then Ok true else scan test l2).
Proof.
  induction l1 as [|a l1 IH]; simpl; [reflexivity|].
  destruct (test a) as [[]| |]; simpl; auto.
Qed.

Lemma scan_map {A B} (test : B → result bool) (g : A → B) (l : list A) :
  scan test (map g l) = scan (fun a => test (g a)) l.
Proof.
  induction l as [|a l IH]; simpl; [reflexivity|]. by rewrite IH.
Qed.

Lemma scan_flat_map {A B} (test : B → result bool) (g : A → list B)
    (l : list A) :
  scan test (flat_map g l) = scan (fun a => scan test (g a)) l.
Proof.
  induction l as [|a l IH]; simpl; [reflexivity|].
  rewrite scan_app, IH. reflexivity.
Qed.

Lemma scan_ext {A} (f g : A → result bool) (l : list A) :
  (∀ a, f a = g a) → scan f l = scan g l.
Proof.
  intros E. induction l as [|a l IH]; simpl; [reflexivity|].
  by rewrite E, IH.
Qed.

Lemma scan_windows {A B C} (test : C → result bool) (line : A → B → C)
    (cs : list B) (rs : list A) :
  scan test (flat_map (fun r => map (fun c => line r c) cs) rs) =
  scan (fun r => scan (fun c => test (line r c)) cs) rs.
Proof.
  rewrite scan_flat_map. apply scan_ext. intros r. apply scan_map.
Qed.

(** The nested loops of [check_winner] visit the windows that
    [generate_lines] lists, in the same order. *)
Lemma check_winner_lines (self : TicTacToeAdapter) (board : list string)
    (player : string) :
  check_winner board player (size self) (to_win self) =
  scan (all_marked board player) (generate_lines self).
Proof.
  unfold check_winner, generate_lines,
    row_lines, col_lines, diag_lines, anti_lines.
  rewrite !scan_app, !scan_windows.
  by rewrite bind_bool_id.
Qed.

(** Every index of every generated line is a cell of a [size] x [size]
    board, whatever [size] and [to_win] are. *)
Lemma lines_inside (self : TicTacToeAdapter) (line : list Z) (i : Z) :
  In line (generate_lines self) → In i line →
  0 ≤ i < size self * size self.
Proof.
  unfold generate_lines, row_lines, col_lines, diag_lines, anti_lines.
  rewrite !in_app_iff, !in_flat_map.
  intros [H|[H|[H|H]]] Hi;
    destruct H as (r & Hr & H); apply in_map_iff in H as (c & <- & Hc);
    apply in_map_iff in Hi as (k & <- & Hk);
    apply in_range in Hr, Hc, Hk; nia.
Qed.

Lemma all_marked_inside (board : list string) (player : string)
    (idx : list Z) :
  (∀ i, In i idx → 0 ≤ i < Z.of_nat (length board)) →
  ∃ b, all_marked board player idx = Ok b ∧
       (b = true ↔ completed board player idx).
Proof.
  unfold completed, holds.
  induction idx as [|i idx IH]; intros Hin; simpl.
  - exists true. split; [reflexivity|]. split; [intros _ ? []|reflexivity].
  - destruct (getitem_inside board i) as (x & Hx & ->);
      [apply Hin; by left|]. simpl.
    case_bool_decide as Hp.
    + destruct IH as (b & -> & Hb); [intros; apply Hin; by right|]. exists b. split; [reflexivity|].
      rewrite Hb. split.
      * intros H j [<-|Hj]; [congruence|auto].
      * intros H j Hj. auto.
    + exists false. split; [reflexivity|]. split; [discriminate|].
      intros H. specialize (H i (or_introl eq_refl)). congruence.
Qed.

Lemma scan_decides {A} (test : A → result bool) (P : A → Prop) (l : list A) :
  (∀ a, In a l → ∃ b, test a = Ok b ∧ (b = true ↔ P a)) →
  ∃ b, scan test l = Ok b ∧ (b = true ↔ ∃ a, In a l ∧ P a).
Proof.
  induction l as [|a l IH]; intros Hl; simpl.
  - exists false. split; [reflexivity|].
    split; [discriminate|intros (? & [] & _)].
  - destruct (Hl a (or_introl eq_refl)) as (b & -> & Hb). simpl.
    destruct b.
    + exists true. split; [reflexivity|]. split; [|reflexivity].
      intros _. exists a. split; [by left|by apply Hb].
    + destruct IH as (b & -> & Hb'); [intros; apply Hl; by right|].
      exists b. split; [reflexivity|]. rewrite Hb'. split.
      * intros (x & Hx & HP). eauto.
      * intros (x & [<-|Hx] & HP); [|eauto].
        apply Hb in HP. discriminate.
Qed.

(** On a board of [size * size] cells [check_winner] returns, and returns
    [True] exactly when a generated line is completed. *)
Lemma check_winner_decides (self : TicTacToeAdapter) (board : list string)
    (player : string) :
  Z.of_nat (length board) = size self * size self →
  ∃ b, check_winner board player (size self) (to_win self) = Ok b ∧
       (b = true ↔
        ∃ line, In line (generate_lines self) ∧ completed board player line).
Proof.
  intros Hlen. rewrite check_winner_lines.
  apply scan_decides. intros line Hline.
  apply all_marked_inside. intros i Hi. rewrite Hlen.
  eapply lines_inside; eauto.
Qed.

(** C5: on every board of [size * size] cells, [check_winner] returns
    [True] if and only if some line returned by [generate_lines], for the
    same size and run length, has the player's mark at every index: the
    window scan and the materialised line set agree on what a win is. *)
Theorem check_winner_iff_generate_lines (self : TicTacToeAdapter)
    (board : list string) (player : string) :
  Z.of_nat (length board) = size self * size self →
  ∃ won, check_winner board player (size self) (to_win self) = Ok won ∧
    (won = true ↔
     ∃ line, In line (generate_lines self) ∧
             ∀ i, In i line → board !! Z.to_nat i = Some player).
Proof. apply check_winner_decides. Qed.

Lemma check_winner_iff_generate_lines_witness :
  ∃ won, check_winner (create_board 3) "X" 3 3 = Ok won ∧
    (won = true ↔
     ∃ line, In line (generate_lines ttt) ∧
             ∀ i, In i line → create_board 3 !! Z.to_nat i = Some "X"%string).
Proof. apply (check_winner_iff_generate_lines ttt). reflexivity. Defined.

(** ** Counting the generated lines *)

Lemma length_windows {A B C} (line : A → B → C) (cs : list B) (rs : list A) :
  length (flat_map (fun r => map (fun c => line r c) cs) rs) =
  (length rs * length cs)%nat.
Proof.
  induction rs as [|r rs IH]; simpl; [reflexivity|].
  by rewrite length_app, length_map, IH.
Qed.

Lemma length_row_lines (N K : Z) :
  1 ≤ K ≤ N → Z.of_nat (length (row_lines N K)) = N * (N - K + 1).
Proof.
  intros H. unfold row_lines. rewrite length_windows, !length_range. lia.
Qed.

Lemma length_col_lines (N K : Z) :
  1 ≤ K ≤ N → Z.of_nat (length (col_lines N K)) = N * (N - K + 1).
Proof.
  intros H. unfold col_lines. rewrite length_windows, !length_range. lia.
Qed.

Lemma length_diag_lines (N K : Z) :
  1 ≤ K ≤ N → Z.of_nat (length (diag_lines N K)) = (N - K + 1) ^ 2.
Proof.
  intros H. unfold diag_lines. rewrite length_windows, !length_range. lia.
Qed.

Lemma length_anti_lines (N K : Z) :
  1 ≤ K ≤ N → Z.of_nat (length (anti_lines N K)) = (N - K + 1) ^ 2.
Proof.
  intros H. unfold anti_lines. rewrite length_windows, !length_range. lia.
Qed.

Lemma length_line (self : TicTacToeAdapter) (line : list Z) :
  0 ≤ to_win self → In line (generate_lines self) →
  Z.of_nat (length line) = to_win self.
Proof.
  intros HK.
  unfold generate_lines, row_lines, col_lines, diag_lines, anti_lines.
  rewrite !in_app_iff, !in_flat_map.
  intros [H|[H|[H|H]]];
    destruct H as (r & _ & H); apply in_map_iff in H as (c & <- & _);
    rewrite length_map, length_range; lia.
Qed.

(** The windows of each loop are the runs of its direction that lie on
    the board. *)
Lemma run_bounds (N K row col drow dcol : Z) :
  1 ≤ K →
  (∀ i, 0 ≤ i < K → 0 ≤ row + i * drow < N ∧ 0 ≤ col + i * dcol < N) →
  (0 ≤ row < N ∧ 0 ≤ col < N) ∧
  (0 ≤ row + (K - 1) * drow < N ∧ 0 ≤ col + (K - 1) * dcol < N).
Proof.
  intros HK H. split.
  - specialize (H 0 ltac:(lia)). lia.
  - apply H. lia.
Qed.

Lemma row_lines_runs (N K : Z) (line : list Z) :
  1 ≤ K → In line (row_lines N K) ↔ is_run N K 0 1 line.
Proof.
  intros HK. unfold row_lines, is_run, run_cells, cell_index.
  rewrite in_flat_map. split.
  - intros (r & Hr%in_range & (c & <- & Hc%in_range)%in_map_iff).
    exists r, c. split; [intros i Hi; lia|].
    apply map_ext. intros i. ring.
  - intros (row & col & Hon & ->).
    destruct (run_bounds N K row col 0 1 HK Hon) as [H0 H1].
    exists row. split; [apply in_range; lia|].
    apply in_map_iff. exists col. split; [|apply in_range; lia].
    apply map_ext. intros i. ring.
Qed.

Lemma col_lines_runs (N K : Z) (line : list Z) :
  1 ≤ K → In line (col_lines N K) ↔ is_run N K 1 0 line.
Proof.
  intros HK. unfold col_lines, is_run, run_cells, cell_index.
  rewrite in_flat_map. split.
  - intros (c & Hc%in_range & (r & <- & Hr%in_range)%in_map_iff).
    exists r, c. split; [intros i Hi; lia|].
    apply map_ext. intros i. ring.
  - intros (row & col & Hon & ->).
    destruct (run_bounds N K row col 1 0 HK Hon) as [H0 H1].
    exists col. split; [apply in_range; lia|].
    apply in_map_iff. exists row. split; [|apply in_range; lia].
    apply map_ext. intros i. ring.
Qed.

Lemma diag_lines_runs (N K : Z) (line : list Z) :
  1 ≤ K → In line (diag_lines N K) ↔ is_run N K 1 1 line.
Proof.
  intros HK. unfold diag_lines, is_run, run_cells, cell_index.
  rewrite in_flat_map. split.
  - intros (r & Hr%in_range & (c & <- & Hc%in_range)%in_map_iff).
    exists r, c. split; [intros i Hi; lia|].
    apply map_ext. intros i. ring.
  - intros (row & col & Hon & ->).
    destruct (run_bounds N K row col 1 1 HK Hon) as [H0 H1].
    exists row. split; [apply in_range; lia|].
    apply in_map_iff. exists col. split; [|apply in_range; lia].
    apply map_ext. intros i. ring.
Qed.

Lemma anti_lines_runs (N K : Z) (line : list Z) :
  1 ≤ K → In line (anti_lines N K) ↔ is_run N K 1 (-1) line.
Proof.
  intros HK. unfold anti_lines, is_run, run_cells, cell_index.
  rewrite in_flat_map. split.
  - intros (r & Hr%in_range & (c & <- & Hc%in_range)%in_map_iff).
    exists r, c. split; [intros i Hi; lia|].
    apply map_ext. intros i. ring.
  - intros (row & col & Hon & ->).
    destruct (run_bounds N K row col 1 (-1) HK Hon) as [H0 H1].
    exists row. split; [apply in_range; lia|].
    apply in_map_iff. exists col. split; [|apply in_range; lia].
    apply map_ext. intros i. ring.
Qed.

(** No window is listed twice. *)
Lemma NoDup_map_in {A B} (f : A → B) (l : list A) :
  NoDup l → (∀ x y, In x l → In y l → f x = f y → x = y) →
  NoDup (map f l).
Proof.
  induction 1 as [|x l Hx Hl IH]; intros Hinj; simpl; [constructor|].
  constructor.
  - rewrite list_elem_of_In. intros (y & Hy & Hin)%in_map_iff.
    apply Hx. rewrite list_elem_of_In.
    rewrite (Hinj x y) by (simpl; auto). exact Hin.
  - apply IH. intros a b Ha Hb. apply Hinj; by right.
Qed.

Lemma NoDup_windows {A B C} (line : A → B → C) (cs : list B) (rs : list A) :
  NoDup rs → NoDup cs →
  (∀ r r' c c', In r rs → In r' rs → In c cs → In c' cs →
                line r c = line r' c' → r = r' ∧ c = c') →
  NoDup (flat_map (fun r => map (fun c => line r c) cs) rs).
Proof.
  intros Hrs Hcs. induction Hrs as [|r rs Hr Hrs IH]; intros Hinj; simpl;
    [constructor|].
  apply NoDup_app. split; [|split].
  - apply NoDup_map_in; [exact Hcs|]. intros c c' Hc Hc' E.
    by apply (Hinj r r c c'); simpl; auto.
  - intros x (c & <- & Hc)%list_elem_of_In%in_map_iff
             (r' & Hr' & (c' & E & Hc')%in_map_iff)%list_elem_of_In%in_flat_map.
    apply Hr. rewrite list_elem_of_In.
    destruct (Hinj r' r c' c) as [-> _]; simpl; auto.
  - apply IH. intros a a' c c' Ha Ha'. apply Hinj; by right.
Qed.

Lemma map_range_head (f g : Z → Z) (K : Z) :
  1 ≤ K → map f (range 0 K) = map g (range 0 K) → f 0 = g 0.
Proof.
  intros HK. unfold range. rewrite seqZ_cons by lia. simpl.
  by intros [= ->].
Qed.

Lemma NoDup_range (lo hi : Z) : NoDup (range lo hi).
Proof. apply NoDup_seqZ. Qed.

(** A cell index determines its row and its column. *)
Lemma cell_unique (N r c r' c' : Z) :
  0 ≤ c < N → 0 ≤ c' < N → r * N + c = r' * N + c' → r = r' ∧ c = c'.
Proof.
  intros Hc Hc' E.
  assert (r = r') as ->.
  { destruct (Z.lt_trichotomy r r') as [H|[H|H]]; [|done|].
    - assert (N ≤ (r' - r) * N) by nia. nia.
    - assert (N ≤ (r - r') * N) by nia. nia. }
  split; [reflexivity|lia].
Qed.

Lemma NoDup_row_lines (N K : Z) : 1 ≤ K ≤ N → NoDup (row_lines N K).
Proof.
  intros HK. apply NoDup_windows; try apply NoDup_range.
  intros r r' c c' Hr%in_range Hr'%in_range Hc%in_range Hc'%in_range E.
  apply map_range_head in E; [|lia].
  apply (cell_unique N r c r' c'); lia.
Qed.

Lemma NoDup_col_lines (N K : Z) : 1 ≤ K ≤ N → NoDup (col_lines N K).
Proof.
  intros HK. apply NoDup_windows; try apply NoDup_range.
  intros c c' r r' Hc%in_range Hc'%in_range Hr%in_range Hr'%in_range E.
  apply map_range_head in E; [|lia].
  destruct (cell_unique N r c r' c'); [lia..|done].
Qed.

Lemma NoDup_diag_lines (N K : Z) : 1 ≤ K ≤ N → NoDup (diag_lines N K).
Proof.
  intros HK. apply NoDup_windows; try apply NoDup_range.
  intros r r' c c' Hr%in_range Hr'%in_range Hc%in_range Hc'%in_range E.
  apply map_range_head in E; [|lia].
  apply (cell_unique N r c r' c'); lia.
Qed.

Lemma NoDup_anti_lines (N K : Z) : 1 ≤ K ≤ N → NoDup (anti_lines N K).
Proof.
  intros HK. apply NoDup_windows; try apply NoDup_range.
  intros r r' c c' Hr%in_range Hr'%in_range Hc%in_range Hc'%in_range E.
  apply map_range_head in E; [|lia].
  apply (cell_unique N r c r' c'); lia.
Qed.

(** C6: for a board size [N] and a run length [K] with [1 <= K <= N],
    [generate_lines] returns, in this order, the row lines, the column
    lines, the diagonal lines and the anti-diagonal lines: the rows are
    exactly the runs of [K] cells along a row that lie on the board, each
    listed once, [N*(N-K+1)] of them; likewise the [N*(N-K+1)] runs along
    a column, the [(N-K+1)^2] runs along a diagonal and the [(N-K+1)^2]
    runs along an anti-diagonal; [2*N*(N-K+1) + 2*(N-K+1)^2] lines in all,
    each of length [K]. *)
Theorem generate_lines_count (self : TicTacToeAdapter) :
  let N := size self in
  let K := to_win self in
  1 ≤ K ≤ N →
  ∃ rows cols diags antis,
    generate_lines self = rows ++ cols ++ diags ++ antis ∧
    ((∀ line, In line rows ↔ is_run N K 0 1 line) ∧ NoDup rows ∧
     Z.of_nat (length rows) = N * (N - K + 1)) ∧
    ((∀ line, In line cols ↔ is_run N K 1 0 line) ∧ NoDup cols ∧
     Z.of_nat (length cols) = N * (N - K + 1)) ∧
    ((∀ line, In line diags ↔ is_run N K 1 1 line) ∧ NoDup diags ∧
     Z.of_nat (length diags) = (N - K + 1) ^ 2) ∧
    ((∀ line, In line antis ↔ is_run N K 1 (-1) line) ∧ NoDup antis ∧
     Z.of_nat (length antis) = (N - K + 1) ^ 2) ∧
    Z.of_nat (length (generate_lines self)) =
      2 * N * (N - K + 1) + 2 * (N - K + 1) ^ 2 ∧
    ∀ line, In line (generate_lines self) → Z.of_nat (length line) = K.
Proof.
  intros N K H.
  pose proof (length_row_lines N K H). pose proof (length_col_lines N K H).
  pose proof (length_diag_lines N K H). pose proof (length_anti_lines N K H).
  exists (row_lines N K), (col_lines N K), (diag_lines N K), (anti_lines N K).
  split; [reflexivity|].
  split; [split; [intros; apply row_lines_runs; lia|
                  split; [by apply NoDup_row_lines|done]]|].
  split; [split; [intros; apply col_lines_runs; lia|
                  split; [by apply NoDup_col_lines|done]]|].
  split; [split; [intros; apply diag_lines_runs; lia|
                  split; [by apply NoDup_diag_lines|done]]|].
  split; [split; [intros; apply anti_lines_runs; lia|
                  split; [by apply NoDup_anti_lines|done]]|].
  split.
  - unfold generate_lines. fold N K. rewrite !length_app. lia.
  - intros line. apply length_line. fold K. lia.
Qed.

Lemma generate_lines_count_witness :
  ∃ rows cols diags antis,
    generate_lines ttt = rows ++ cols ++ diags ++ antis ∧
    ((∀ line, In line rows ↔ is_run 3 3 0 1 line) ∧ NoDup rows ∧
     Z.of_nat (length rows) = 3 * (3 - 3 + 1)) ∧
    ((∀ line, In line cols ↔ is_run 3 3 1 0 line) ∧ NoDup cols ∧
     Z.of_nat (length cols) = 3 * (3 - 3 + 1)) ∧
    ((∀ line, In line diags ↔ is_run 3 3 1 1 line) ∧ NoDup diags ∧
     Z.of_nat (length diags) = (3 - 3 + 1) ^ 2) ∧
    ((∀ line, In line antis ↔ is_run 3 3 1 (-1) line) ∧ NoDup antis ∧
     Z.of_nat (length antis) = (3 - 3 + 1) ^ 2) ∧
    Z.of_nat (length (generate_lines ttt)) =
      2 * 3 * (3 - 3 + 1) + 2 * (3 - 3 + 1) ^ 2 ∧
    ∀ line, In line (generate_lines ttt) → Z.of_nat (length line) = 3.
Proof. apply (generate_lines_count ttt). simpl. lia. Defined.

(** The lines of the 3x3 game: three rows, three columns, the diagonal and
    the anti-diagonal. *)
Example generate_lines_3x3 :
  generate_lines ttt =
  [[0; 1; 2]; [3; 4; 5]; [6; 7; 8];
   [0; 3; 6]; [1; 4; 7]; [2; 5; 8];
   [0; 4; 8]; [2; 4; 6]].
Proof. reflexivity. Qed.

(** ** [get_moves] *)

Lemma enumerate_from_cons {A} (k : Z) (x : A) (l : list A) :
  zip (seqZ k (Z.of_nat (length (x :: l)))) (x :: l) =
  (k, x) :: zip (seqZ (k + 1) (Z.of_nat (length l))) l.
Proof.
  rewrite seqZ_cons by (simpl; lia). simpl.
  do 3 f_equal; lia.
Qed.

(** The comprehension of [get_moves] over the cells from index [k] on. *)
Lemma free_cells_from (p : Z * string → bool) (k : Z) (l : list string) :
  let moves := map fst (List.filter p (zip (seqZ k (Z.of_nat (length l))) l)) in
  (∀ i, In i moves ↔
        ∃ v, k ≤ i ∧ l !! Z.to_nat (i - k) = Some v ∧ p (i, v) = true) ∧
  StronglySorted Z.lt moves.
Proof.
  revert k. induction l as [|x l IH]; intros k moves; subst moves.
  - simpl. split; [|constructor].
    intros i. split; [intros []|]. intros (v & _ & H & _). discriminate.
  - rewrite enumerate_from_cons. destruct (IH (k + 1)) as [IHin IHsorted].
    assert (Hin : ∀ i,
      (∃ v, k ≤ i ∧ (x :: l) !! Z.to_nat (i - k) = Some v ∧ p (i, v) = true) ↔
      (i = k ∧ p (k, x) = true) ∨
      In i (map fst (List.filter p
                       (zip (seqZ (k + 1) (Z.of_nat (length l))) l)))).
    { intros i. rewrite IHin. split.
      - intros (v & Hk & Hv & Hp).
        destruct (decide (i = k)) as [->|Hne].
        + left. replace (k - k) with 0 in Hv by lia.
          simpl in Hv. injection Hv as ->. auto.
        + right. exists v. split; [lia|]. split; [|done].
          replace (Z.to_nat (i - k)) with (S (Z.to_nat (i - (k + 1))))
            in Hv by lia.
          exact Hv.
      - intros [[-> Hp]|(v & Hk & Hv & Hp)].
        + exists x. replace (k - k) with 0 by lia. split; [lia|done].
        + exists v. split; [lia|]. split; [|done].
          replace (Z.to_nat (i - k)) with (S (Z.to_nat (i - (k + 1))))
            by lia.
          exact Hv. }
    simpl. destruct (p (k, x)) eqn:Hp; simpl.
    + split.
      * intros i. rewrite Hin. split.
        -- intros [<-|H]; auto.
        -- intros [[-> _]|H]; auto.
      * constructor; [exact IHsorted|].
        apply Forall_forall. intros i Hi.
        apply list_elem_of_In, IHin in Hi as (v & Hk & _).
        lia.
    + split; [|exact IHsorted].
      intros i. rewrite Hin. split; [auto|].
      intros [[_ H]|H]; [discriminate|exact H].
Qed.

Lemma get_moves_cells (self : TicTacToeAdapter)
    (state : list string) (maximizing : bool) :
  (∀ i, In i (get_moves self state maximizing) ↔
        ∃ v, 0 ≤ i ∧ state !! Z.to_nat i = Some v ∧
             v ≠ human self ∧ v ≠ computer self) ∧
  StronglySorted Z.lt (get_moves self state maximizing) ∧
  get_moves self state true = get_moves self state false.
Proof.
  destruct (free_cells_from (fun iv => negb (is_mark self (snd iv))) 0 state)
    as [Hin Hsorted].
  unfold get_moves, enumerate, range. rewrite Z.sub_0_r.
  split; [|split; [exact Hsorted|reflexivity]].
  intros i. rewrite Hin. rewrite Z.sub_0_r.
  split; intros (v & Hi & Hv & Hp); exists v; (split; [done|split; [done|]]).
  - simpl in Hp. unfold is_mark in Hp.
    apply negb_true_iff, orb_false_iff in Hp as [H1 H2].
    apply bool_decide_eq_false in H1, H2. done.
  - simpl. unfold is_mark. destruct Hp as [H1 H2].
    apply negb_true_iff, orb_false_iff.
    by rewrite !bool_decide_eq_false.
Qed.

(** C7: [get_moves] returns exactly the indices of the cells that hold
    neither the human's nor the computer's mark, in strictly ascending
    order, and its [maximizing] argument does not affect the result. *)
Theorem get_moves_free_cells_ascending (self : TicTacToeAdapter)
    (state : list string) (maximizing : bool) :
  (∀ i, In i (get_moves self state maximizing) ↔
        ∃ v, 0 ≤ i ∧ state !! Z.to_nat i = Some v ∧
             v ≠ human self ∧ v ≠ computer self) ∧
  StronglySorted Z.lt (get_moves self state maximizing) ∧
  get_moves self state true = get_moves self state false.
Proof. apply get_moves_cells. Qed.

(** ** [apply_move] *)

Lemma setitem_inside {A} (l : list A) (i : Z) (x : A) :
  0 ≤ i < Z.of_nat (length l) → setitem l i x = Ok (<[Z.to_nat i := x]> l).
Proof. intros Hi. unfold setitem. by rewrite norm_index_inside. Qed.

Lemma setitem_length {A} (l l' : list A) (i : Z) (x : A) :
  setitem l i x = Ok l' → length l' = length l.
Proof.
  unfold setitem. destruct (norm_index (length l) i); [|discriminate].
  intros [= <-]. apply length_insert.
Qed.

(** [apply_move] on board objects: the outcome is that of [apply_move] on
    the list the argument denotes, held by a reference that is new. *)
Lemma apply_move_ref_value (self : TicTacToeAdapter) (h : store)
    (state : loc) (board : list string) (move : Z) (maximizing : bool) :
  h !! state = Some board →
  apply_move_ref self h state move maximizing =
  (let! new := apply_move self board move maximizing in
   Ok (<[fresh (dom h) := new]> h, fresh (dom h))).
Proof.
  intros Hb. unfold apply_move_ref, list_copy, list_setitem, apply_move.
  rewrite lookup_total_insert_eq, (lookup_total_correct _ _ _ Hb).
  destruct (setitem board move _); simpl; [|reflexivity..].
  by rewrite insert_insert_eq.
Qed.

Lemma fresh_unused (h : store) : h !! fresh (dom h) = None.
Proof. apply not_elem_of_dom, is_fresh. Qed.

(** C8: for a move returned by [get_moves], [apply_move] returns a new
    board that holds the mover's mark (the computer's when [maximizing],
    the human's otherwise) at index [move] and equals [state] at every
    other index; the cell at [move] did differ, so exactly one cell
    changes; the board object passed in, like every other object of the
    store, is left as it was. *)
Theorem apply_move_changes_one_cell (self : TicTacToeAdapter) (h : store)
    (state : loc) (board : list string) (move : Z) (maximizing : bool) :
  h !! state = Some board →
  In move (get_moves self board maximizing) →
  ∃ h' new_state new,
    apply_move_ref self h state move maximizing = Ok (h', new_state) ∧
    apply_move self board move maximizing = Ok new ∧
    h !! new_state = None ∧
    h' !! new_state = Some new ∧
    h' !! state = Some board ∧
    (∀ l, l ≠ new_state → h' !! l = h !! l) ∧
    length new = length board ∧
    new !! Z.to_nat move = Some (mover self maximizing) ∧
    board !! Z.to_nat move ≠ Some (mover self maximizing) ∧
    (∀ j, j ≠ Z.to_nat move → new !! j = board !! j).
Proof.
  intros Hb Hmove.
  apply get_moves_cells in Hmove as (v & H0 & Hv & Hh & Hc).
  pose proof (lookup_lt_Some _ _ _ Hv) as Hlt.
  assert (Hin : 0 ≤ move < Z.of_nat (length board)) by lia.
  rewrite (apply_move_ref_value _ _ _ _ _ _ Hb).
  unfold apply_move. rewrite (setitem_inside _ _ _ Hin). simpl.
  eexists _, _, _. split; [reflexivity|]. split; [reflexivity|].
  split; [apply fresh_unused|].
  split; [apply lookup_insert_eq|].
  assert (Hne : fresh (dom h) ≠ state).
  { intros E. pose proof (fresh_unused h) as Hf. rewrite E in Hf. congruence. }
  split; [by rewrite lookup_insert_ne|].
  split; [intros l Hl; by rewrite lookup_insert_ne|].
  split; [apply length_insert|].
  split; [by apply list_lookup_insert_eq|].
  split.
  - rewrite Hv. unfold mover. destruct maximizing; congruence.
  - intros j Hj. by apply list_lookup_insert_ne.
Qed.

Lemma apply_move_changes_one_cell_witness :
  ∃ h' new_state new,
    apply_move_ref ttt one_board 1%positive 4 true = Ok (h', new_state) ∧
    apply_move ttt (create_board 3) 4 true = Ok new ∧
    one_board !! new_state = None ∧
    h' !! new_state = Some new ∧
    h' !! 1%positive = Some (create_board 3) ∧
    (∀ l, l ≠ new_state → h' !! l = one_board !! l) ∧
    length new = length (create_board 3) ∧
    new !! Z.to_nat 4 = Some (mover ttt true) ∧
    create_board 3 !! Z.to_nat 4 ≠ Some (mover ttt true) ∧
    (∀ j, j ≠ Z.to_nat 4 → new !! j = create_board 3 !! j).
Proof.
  apply (apply_move_changes_one_cell ttt one_board 1%positive).
  - reflexivity.
  - vm_compute. tauto.
Defined.

(** C10: [apply_move] checks no legality. For every index inside the
    board, a cell occupied by either mark included, it returns a copy of
    the board with that cell overwritten by the mover's mark and raises
    nothing; the engine, given such a move by its move generator, searches
    the overwritten board and returns the move. *)
Theorem apply_move_overwrites_any_cell (self : TicTacToeAdapter)
    (state : list string) (move : Z) (maximizing : bool) :
  0 ≤ move < Z.of_nat (length state) →
  let new := <[Z.to_nat move := mover self maximizing]> state in
  apply_move self state move maximizing = Ok new ∧
  (∀ (h : store) (l : loc), h !! l = Some state →
     ∃ h' l', apply_move_ref self h l move maximizing = Ok (h', l') ∧
              l' ≠ l ∧ h' !! l' = Some new ∧ h' !! l = Some state) ∧
  (∀ moves : list string → bool → result (list Z),
     moves state maximizing = Ok [move] →
     is_terminal self state = Ok false →
     minimax moves (apply_move self) (evaluate self) (is_terminal self)
       2 state 1 maximizing =
     (let! v := evaluate self new in Ok (Fin v, Some move))).
Proof.
  intros Hin new.
  assert (Happ : apply_move self state move maximizing = Ok new).
  { unfold apply_move. by rewrite setitem_inside. }
  split; [exact Happ|]. split.
  - intros h l Hl. rewrite (apply_move_ref_value _ _ _ _ _ _ Hl), Happ. simpl.
    eexists _, _. split; [reflexivity|].
    assert (Hne : fresh (dom h) ≠ l).
    { intros E. pose proof (fresh_unused h) as Hf. rewrite E in Hf.
      congruence. }
    split; [exact Hne|]. split; [apply lookup_insert_eq|].
    by rewrite lookup_insert_ne.
  - intros moves Hmoves Hterm. simpl. rewrite Hterm. simpl.
    destruct maximizing; rewrite Hmoves; simpl; rewrite Happ; simpl;
      destruct (evaluate self new); reflexivity.
Qed.

Lemma apply_move_overwrites_any_cell_witness :
  apply_move ttt ["X"; "O"; "3"; "4"; "5"; "6"; "7"; "8"; "9"]%string 0 true =
  Ok ["O"; "O"; "3"; "4"; "5"; "6"; "7"; "8"; "9"]%string.
Proof.
  apply (apply_move_overwrites_any_cell ttt
           ["X"; "O"; "3"; "4"; "5"; "6"; "7"; "8"; "9"]%string 0 true).
  simpl. lia.
Defined.

(** ** [evaluate] *)

Lemma count_marked_inside (state : list string) (mark : string)
    (line : list Z) :
  (∀ i, In i line → 0 ≤ i < Z.of_nat (length state)) →
  count_marked state mark line = Ok (marks_in state mark line).
Proof.
  unfold marks_in.
  induction line as [|i line IH]; intros Hin; simpl; [reflexivity|].
  destruct (getitem_inside state i) as (x & Hx & ->); [apply Hin; by left|].
  rewrite IH by (intros; apply Hin; by right). simpl. f_equal.
  rewrite Hx. case_bool_decide as H1; case_bool_decide as H2;
    simpl; try congruence; lia.
Qed.

Lemma marks_in_nonneg (state : list string) (mark : string) (line : list Z) :
  0 ≤ marks_in state mark line.
Proof. unfold marks_in. lia. Qed.

Lemma score_lines_inside (self : TicTacToeAdapter) (state : list string)
    (lines : list (list Z)) (score : Z) :
  (∀ line i, In line lines → In i line → 0 ≤ i < Z.of_nat (length state)) →
  score_lines self state lines score =
  Ok (score + foldr (fun line total => line_value self state line + total)
                    0 lines).
Proof.
  revert score. induction lines as [|line lines IH]; intros score Hin; simpl.
  - f_equal. lia.
  - rewrite !count_marked_inside by (intros; eapply Hin; [by left|done]).
    simpl. rewrite !IH by (intros; eapply Hin; [by right|done]).
    set (rest := foldr _ 0 lines). unfold line_value.
    pose proof (marks_in_nonneg state (computer self) line).
    pose proof (marks_in_nonneg state (human self) line).
    destruct (Z.eqb_spec (marks_in state (human self) line) 0);
      destruct (Z.ltb_spec 0 (marks_in state (computer self) line));
      destruct (Z.eqb_spec (marks_in state (computer self) line) 0);
      destruct (Z.ltb_spec 0 (marks_in state (human self) line));
      simpl; repeat case_bool_decide; try lia; f_equal; lia.
Qed.

(** On a board of [size * size] cells [evaluate] returns: 100 when the
    computer's win check succeeds, else -100 when the human's does, else
    the heuristic. *)
Lemma evaluate_value (self : TicTacToeAdapter) (state : list string) :
  Z.of_nat (length state) = size self * size self →
  ∃ ai_won human_won,
    check_winner state (computer self) (size self) (to_win self) = Ok ai_won ∧
    check_winner state (human self) (size self) (to_win self) = Ok human_won ∧
    evaluate self state =
    Ok (if ai_won then 100 else if human_won then -100
        else heuristic self state).
Proof.
  intros Hlen.
  destruct (check_winner_decides self state (computer self) Hlen)
    as (wc & Hwc & _).
  destruct (check_winner_decides self state (human self) Hlen)
    as (wh & Hwh & _).
  exists wc, wh. split; [done|]. split; [done|].
  unfold evaluate. rewrite Hwc. simpl. destruct wc; [reflexivity|].
  rewrite Hwh. simpl. destruct wh; [reflexivity|].
  rewrite score_lines_inside; [reflexivity|].
  intros line i Hline Hi. rewrite Hlen. eapply lines_inside; eauto.
Qed.

(** C4, amended: on every board of [size * size] cells, [evaluate] returns
    exactly 100 whenever [check_winner] holds for the computer's mark,
    exactly -100 whenever it holds for the human's mark and not for the
    computer's, and otherwise the sum over all generated lines of the
    computer marks of the lines with at least one computer mark and no
    human mark, minus the human marks of the lines with at least one human
    mark and no computer mark, mixed and empty lines contributing zero. *)
Theorem evaluate_cases (self : TicTacToeAdapter) (state : list string) :
  Z.of_nat (length state) = size self * size self →
  ∃ ai_won human_won,
    check_winner state (computer self) (size self) (to_win self) = Ok ai_won ∧
    check_winner state (human self) (size self) (to_win self) = Ok human_won ∧
    (ai_won = true → evaluate self state = Ok 100) ∧
    (ai_won = false → human_won = true → evaluate self state = Ok (-100)) ∧
    (ai_won = false → human_won = false →
     evaluate self state = Ok (heuristic self state)).
Proof.
  intros Hlen.
  destruct (evaluate_value self state Hlen) as (wc & wh & Hwc & Hwh & ->).
  exists wc, wh. split; [done|]. split; [done|].
  repeat split; intros; subst; reflexivity.
Qed.

Lemma evaluate_cases_witness :
  ∃ ai_won human_won,
    check_winner live_pair "O" 3 3 = Ok ai_won ∧
    check_winner live_pair "X" 3 3 = Ok human_won ∧
    (ai_won = true → evaluate ttt live_pair = Ok 100) ∧
    (ai_won = false → human_won = true →
     evaluate ttt live_pair = Ok (-100)) ∧
    (ai_won = false → human_won = false →
     evaluate ttt live_pair = Ok (heuristic ttt live_pair)).
Proof. apply (evaluate_cases ttt live_pair). reflexivity. Defined.

(** The heuristic of a board with a live pair of the computer. *)
Example heuristic_live_pair :
  evaluate ttt live_pair = Ok 3 ∧ heuristic ttt live_pair = 3.
Proof. split; reflexivity. Qed.

(** C4 as stated fails where both win checks hold: the human's check
    holds on [both_rows], yet [evaluate] returns 100, not -100. *)
Lemma evaluate_human_win_not_minus_100 :
  Z.of_nat (length both_rows) = size ttt * size ttt ∧
  check_winner both_rows (human ttt) (size ttt) (to_win ttt) = Ok true ∧
  evaluate ttt both_rows = Ok 100 ∧
  evaluate ttt both_rows ≠ Ok (-100).
Proof. repeat split; try reflexivity. discriminate. Qed.

(** C9: on any board on which [check_winner] holds for the computer's mark
    and for the human's mark at once, [evaluate] returns 100, the
    computer's check being made first; and when the human's check holds,
    [evaluate] returns -100 exactly when the computer's check does not. *)
Theorem evaluate_computer_first (self : TicTacToeAdapter)
    (state : list string) :
  check_winner state (human self) (size self) (to_win self) = Ok true →
  (check_winner state (computer self) (size self) (to_win self) = Ok true →
   evaluate self state = Ok 100) ∧
  (evaluate self state = Ok (-100) ↔
   check_winner state (computer self) (size self) (to_win self) = Ok false).
Proof.
  intros Hh. unfold evaluate.
  destruct (check_winner state (computer self) _ _) as [[]| |]; simpl.
  - split; [reflexivity|]. split; discriminate.
  - rewrite Hh. simpl. split; [discriminate|]. split; reflexivity.
  - split; [discriminate|]. split; discriminate.
  - split; [discriminate|]. split; discriminate.
Qed.

Lemma evaluate_computer_first_witness :
  evaluate ttt both_rows = Ok 100.
Proof.
  apply (evaluate_computer_first ttt both_rows); reflexivity.
Defined.

(** ** The order of scores *)

Ltac score_cases :=
  unfold better, sentinel, score_lt, score_gt;
  repeat match goal with
         | m : bool |- _ => destruct m
         | s : score |- _ => destruct s
         end;
  repeat match goal with
         | |- context [?a <? ?b] => destruct (Z.ltb_spec a b)
         | H : context [?a <? ?b] |- _ => destruct (Z.ltb_spec a b)
         end;
  intros; try discriminate; try reflexivity; try (f_equal; lia); try lia.

Lemma better_irrefl (mx : bool) (a : score) : better mx a a = false.
Proof. score_cases. Qed.

Lemma better_trans (mx : bool) (a b c : score) :
  better mx a b = true → better mx b c = true → better mx a c = true.
Proof. score_cases. Qed.

(** [b <= a] and [a <= b] give [a = b]: the order is total. *)
Lemma better_antisym (mx : bool) (a b : score) :
  better mx a b = false → better mx b a = false → a = b.
Proof. score_cases. Qed.

Lemma not_better_trans (mx : bool) (a b c : score) :
  better mx a b = false → better mx b c = false → better mx a c = false.
Proof. score_cases. Qed.

Lemma better_not_better (mx : bool) (a b c : score) :
  better mx a b = true → better mx c b = false → better mx a c = true.
Proof. score_cases. Qed.

Lemma better_below (mx : bool) (a b c : score) :
  better mx a b = true → better mx a c = false → better mx b c = false.
Proof. score_cases. Qed.

Lemma sentinel_least (mx : bool) (a : score) :
  better mx (sentinel mx) a = false.
Proof. score_cases. Qed.

Lemma better_sentinel (mx : bool) (a : score) :
  better mx a (sentinel mx) = false → a = sentinel mx.
Proof. score_cases. Qed.

(** ** The engine *)

Section MinimaxFacts.
Context {State Move : Type}.
Variable get_moves : State → bool → result (list Move).
Variable apply_move : State → Move → bool → result State.
Variable evaluate : State → result Z.
Variable is_terminal : State → result bool.

Local Abbreviation minimax :=
  (minimax get_moves apply_move evaluate is_terminal).
Local Abbreviation search := (search apply_move).
Local Abbreviation child_score :=
  (child_score get_moves apply_move evaluate is_terminal).

(** The base case: one unit of fuel is enough, no recursive call is
    made. *)
Lemma minimax_base (fuel : nat) (state : State) (depth : Z) (mx : bool) :
  depth = 0 ∨ is_terminal state = Ok true →
  minimax (S fuel) state depth mx =
  (let! v := evaluate state in Ok (Fin v, None)).
Proof.
  intros H. simpl.
  destruct (Z.eqb_spec depth 0) as [_|Hd]; [reflexivity|].
  destruct H as [H|H]; [done|]. by rewrite H.
Qed.

(** The recursive case is the loop over the moves of [get_moves]. *)
Lemma minimax_step (fuel : nat) (state : State) (depth : Z) (mx : bool) :
  depth ≠ 0 → is_terminal state = Ok false →
  minimax (S fuel) state depth mx =
  (let! moves := get_moves state mx in
   search mx (fun s => minimax fuel s (depth - 1) (negb mx))
          state moves (sentinel mx) None).
Proof.
  intros Hd Ht. simpl.
  destruct (Z.eqb_spec depth 0) as [|_]; [done|].
  rewrite Ht. simpl. destruct mx; reflexivity.
Qed.

(** The loop, from any best pair [(b, bm)]: the final score is at least
    [b] and every score of the list; and either nothing was replaced, or
    the final move is the first whose score is the final score, that
    score being strictly better than [b]. *)
Lemma search_first_best (mx : bool)
    (rec : State → result (score * option Move)) (state : State)
    (ms : list Move) (ss : list score) (b : score) (bm : option Move) :
  Forall2 (fun m s =>
    (let! new_state := apply_move state m mx in
     let! r := rec new_state in Ok (fst r)) = Ok s) ms ss →
  ∃ b' bm',
    search mx rec state ms b bm = Ok (b', bm') ∧
    better mx b b' = false ∧
    (∀ s, In s ss → better mx s b' = false) ∧
    ((b' = b ∧ bm' = bm) ∨
     ∃ i m, ms !! i = Some m ∧ ss !! i = Some b' ∧ bm' = Some m ∧
            better mx b' b = true ∧
            ∀ j s, (j < i)%nat → ss !! j = Some s →
                   better mx b' s = true).
Proof.
  intros HF. revert b bm.
  induction HF as [|m s ms ss Hm HF IH]; intros b bm.
  - exists b, bm. simpl. split; [reflexivity|].
    split; [apply better_irrefl|]. split; [intros ? []|by left].
  - simpl.
    destruct (apply_move state m mx) as [st| |]; simpl in Hm |- *;
      try discriminate.
    destruct (rec st) as [r| |]; simpl in Hm |- *; try discriminate.
    injection Hm as <-.
    destruct (better mx (fst r) b) eqn:Hsb.
    + destruct (IH (fst r) (Some m))
        as (b' & bm' & -> & Hle & Hall & Hcase).
      exists b', bm'. split; [reflexivity|].
      split; [eapply better_below; eauto|].
      split; [intros s0 [<-|H0]; auto|].
      right. destruct Hcase as [[-> ->]|(i & m' & Hi & Hsi & -> & Hb & Hlt)].
      * exists 0%nat, m. repeat split; try done. intros j s0 Hj. lia.
      * exists (S i), m'. repeat split; try done.
        -- eapply better_trans; eauto.
        -- intros [|j] s0 Hj Hs0; simpl in Hs0.
           ++ by injection Hs0 as <-.
           ++ eapply Hlt; [|exact Hs0]. lia.
    + destruct (IH b bm) as (b' & bm' & -> & Hle & Hall & Hcase).
      exists b', bm'. split; [reflexivity|]. split; [exact Hle|].
      split; [intros s0 [<-|H0]; [eapply not_better_trans; eauto|auto]|].
      destruct Hcase as [[-> ->]|(i & m' & Hi & Hsi & -> & Hb & Hlt)];
        [by left|right].
      exists (S i), m'. repeat split; try done.
      intros [|j] s0 Hj Hs0; simpl in Hs0.
      * injection Hs0 as <-. eapply better_not_better; eauto.
      * eapply Hlt; [|exact Hs0]. lia.
Qed.

(** The recursive case of [minimax]: the score returned is optimal among
    the scores of the moves, and the move returned is the first, in the
    order of [get_moves], whose score is that optimum; no move is
    returned only when every score is the sentinel of the branch. *)
Lemma minimax_first_best (fuel : nat) (state : State) (depth : Z)
    (mx : bool) (ms : list Move) (ss : list score) :
  depth ≠ 0 → is_terminal state = Ok false →
  get_moves state mx = Ok ms →
  Forall2 (fun m s => child_score fuel state depth mx m = Ok s) ms ss →
  ∃ best bm,
    minimax (S fuel) state depth mx = Ok (best, bm) ∧
    (∀ s, In s ss → better mx s best = false) ∧
    match bm with
    | Some m =>
        ∃ i, ms !! i = Some m ∧ ss !! i = Some best ∧
             ∀ j s, (j < i)%nat → ss !! j = Some s →
                    better mx best s = true
    | None => best = sentinel mx ∧ ∀ s, In s ss → s = sentinel mx
    end.
Proof.
  intros Hd Ht Hms HF. rewrite minimax_step, Hms by done. simpl.
  destruct (search_first_best mx _ state ms ss (sentinel mx) None HF)
    as (b' & bm' & Hsearch & _ & Hall & Hcase).
  exists b', bm'. split; [exact Hsearch|]. split; [exact Hall|].
  destruct Hcase as [[-> ->]|(i & m & Hi & Hsi & -> & _ & Hlt)].
  - split; [reflexivity|]. intros s Hs. apply better_sentinel. auto.
  - exists i. auto.
Qed.

(** With no move to try the loop returns its initial pair. *)
Lemma minimax_no_moves (fuel : nat) (state : State) (depth : Z)
    (mx : bool) :
  depth ≠ 0 → is_terminal state = Ok false → get_moves state mx = Ok [] →
  minimax (S fuel) state depth mx = Ok (sentinel mx, None).
Proof. intros Hd Ht Hms. by rewrite minimax_step, Hms. Qed.
(** More fuel does not change a result. *)
Lemma search_mono (mx : bool)
    (rec rec' : State → result (score * option Move)) (state : State)
    (ms : list Move) (b : score) (bm : option Move)
    (r : score * option Move) :
  (∀ s x, rec s = Ok x → rec' s = Ok x) →
  search mx rec state ms b bm = Ok r → search mx rec' state ms b bm = Ok r.
Proof.
  intros Hrec. revert b bm. induction ms as [|m ms IH]; intros b bm; simpl;
    [done|].
  destruct (apply_move state m mx) as [st| |]; simpl; try discriminate.
  destruct (rec st) as [x| |] eqn:Hx; simpl; try discriminate.
  rewrite (Hrec _ _ Hx). simpl. destruct (better mx (fst x) b); apply IH.
Qed.

Lemma minimax_fuel_S (fuel : nat) :
  ∀ (state : State) (depth : Z) (mx : bool) (r : score * option Move),
    minimax fuel state depth mx = Ok r →
    minimax (S fuel) state depth mx = Ok r.
Proof.
  induction fuel as [|fuel IH]; intros state depth mx r; [discriminate|].
  change (minimax (S fuel) state depth mx) with
    (let! stop := (if depth =? 0 then Ok true else is_terminal state) in
     if stop then let! v := evaluate state in Ok (Fin v, None)
     else if mx then
       let! moves := get_moves state true in
       search true (fun s => minimax fuel s (depth - 1) false)
              state moves (sentinel true) None
     else
       let! moves := get_moves state false in
       search false (fun s => minimax fuel s (depth - 1) true)
              state moves (sentinel false) None).
  change (minimax (S (S fuel)) state depth mx) with
    (let! stop := (if depth =? 0 then Ok true else is_terminal state) in
     if stop then let! v := evaluate state in Ok (Fin v, None)
     else if mx then
       let! moves := get_moves state true in
       search true (fun s => minimax (S fuel) s (depth - 1) false)
              state moves (sentinel true) None
     else
       let! moves := get_moves state false in
       search false (fun s => minimax (S fuel) s (depth - 1) true)
              state moves (sentinel false) None).
  destruct (if depth =? 0 then Ok true else is_terminal state)
    as [[]| |]; cbn [bind]; try done.
  destruct mx;
    (destruct (get_moves state _) as [ms| |]; cbn [bind]; try done;
     apply search_mono; intros; by apply IH).
Qed.

Lemma minimax_fuel_mono (fuel fuel' : nat) (state : State) (depth : Z)
    (mx : bool) (r : score * option Move) :
  (fuel ≤ fuel')%nat →
  minimax fuel state depth mx = Ok r → minimax fuel' state depth mx = Ok r.
Proof.
  induction 1 as [|fuel' _ IH]; [done|].
  intros H. by apply minimax_fuel_S, IH.
Qed.
End MinimaxFacts.

(** C1 as stated fails: in a game whose state is not terminal and has no
    move, [minimax] at depth 1 returns the sentinel of the branch, not the
    static evaluation of the state. *)
Lemma minimax_no_moves_not_evaluate :
  stuck_is_terminal tt = Ok false ∧
  stuck_get_moves tt true = Ok [] ∧
  stuck_evaluate tt = Ok 7 ∧
  minimax stuck_get_moves stuck_apply_move stuck_evaluate stuck_is_terminal
    1 tt 1 true = Ok (NegInf, None) ∧
  minimax stuck_get_moves stuck_apply_move stuck_evaluate stuck_is_terminal
    1 tt 1 true ≠ Ok (Fin 7, None).
Proof. repeat split; try reflexivity. discriminate. Qed.

(** C1, amended: for all callbacks, every state and every depth other
    than 0 such that [is_terminal(state)] is false and [get_moves(state,
    maximizing)] returns the empty list, [minimax] returns the pair of the
    initial best score and [None]: [float("-inf")] when maximizing,
    [float("inf")] when minimizing. *)
Theorem minimax_no_moves_returns_sentinel {State Move : Type}
    (get_moves : State → bool → result (list Move))
    (apply_move : State → Move → bool → result State)
    (evaluate : State → result Z) (is_terminal : State → result bool)
    (fuel : nat) (state : State) (depth : Z) (maximizing : bool) :
  depth ≠ 0 →
  is_terminal state = Ok false →
  get_moves state maximizing = Ok [] →
  minimax get_moves apply_move evaluate is_terminal
    (S fuel) state depth maximizing =
  Ok (if maximizing then NegInf else PosInf, None).
Proof.
  intros Hd Ht Hms.
  rewrite (minimax_no_moves _ _ _ _ _ _ _ _ Hd Ht Hms).
  by destruct maximizing.
Qed.

Lemma minimax_no_moves_returns_sentinel_witness :
  minimax stuck_get_moves stuck_apply_move stuck_evaluate stuck_is_terminal
    1 tt 1 false = Ok (PosInf, None).
Proof.
  apply (minimax_no_moves_returns_sentinel
           stuck_get_moves stuck_apply_move stuck_evaluate stuck_is_terminal
           0 tt 1 false); [lia | reflexivity | reflexivity].
Defined.

(** ** The adapter as a game *)

Lemma no_moves_board_full (self : TicTacToeAdapter) (state : list string)
    (maximizing : bool) :
  get_moves self state maximizing = [] ↔
  forallb (is_mark self) state = true.
Proof.
  pose proof (get_moves_cells self state maximizing) as (Hin & _ & _).
  rewrite forallb_forall. split.
  - intros Hnil v Hv. apply list_elem_of_In, list_elem_of_lookup in Hv as [j Hj].
    destruct (is_mark self v) eqn:Hm; [reflexivity|].
    assert (In (Z.of_nat j) (get_moves self state maximizing)) as Hj'.
    { apply Hin. exists v. rewrite Nat2Z.id. split; [lia|]. split; [done|].
      unfold is_mark in Hm. apply orb_false_iff in Hm as [H1 H2].
      by apply bool_decide_eq_false in H1, H2. }
    rewrite Hnil in Hj'. destruct Hj'.
  - intros Hall. destruct (get_moves self state maximizing) as [|i l] eqn:E;
      [reflexivity|].
    destruct (proj1 (Hin i) (or_introl eq_refl)) as (v & _ & Hv & Hh & Hc).
    assert (is_mark self v = true) as Hm.
    { apply Hall, list_elem_of_In, list_elem_of_lookup. eauto. }
    unfold is_mark in Hm. apply orb_true_iff in Hm as [H|H];
      apply bool_decide_eq_true in H; done.
Qed.

Lemma is_terminal_value (self : TicTacToeAdapter) (state : list string) :
  Z.of_nat (length state) = size self * size self →
  ∃ human_won ai_won,
    check_winner state (human self) (size self) (to_win self)
      = Ok human_won ∧
    check_winner state (computer self) (size self) (to_win self)
      = Ok ai_won ∧
    is_terminal self state =
    Ok (human_won || ai_won || forallb (is_mark self) state).
Proof.
  intros Hlen.
  destruct (check_winner_decides self state (human self) Hlen)
    as (wh & Hwh & _).
  destruct (check_winner_decides self state (computer self) Hlen)
    as (wc & Hwc & _).
  exists wh, wc. split; [done|]. split; [done|].
  unfold is_terminal. rewrite Hwh. simpl. destruct wh; [reflexivity|].
  rewrite Hwc. simpl. destruct wc; reflexivity.
Qed.

(** A board without a free cell is terminal. *)
Lemma no_moves_terminal (self : TicTacToeAdapter) (state : list string)
    (maximizing : bool) :
  Z.of_nat (length state) = size self * size self →
  get_moves self state maximizing = [] →
  is_terminal self state = Ok true.
Proof.
  intros Hlen Hnil.
  destruct (is_terminal_value self state Hlen) as (wh & wc & _ & _ & ->).
  apply no_moves_board_full in Hnil. rewrite Hnil.
  by rewrite orb_true_r.
Qed.

(** C2: whenever [depth == 0] or [is_terminal(state)] is true, [minimax]
    returns exactly [(evaluate(state), None)], for all callbacks, with one
    unit of fuel, that is with no recursive call; in particular on a
    Tic-Tac-Toe board with no move available, or with [depth == 0], the
    move returned is [None] and the score is [evaluate(state)]. *)
Theorem minimax_base_case :
  (∀ (State Move : Type)
     (get_moves : State → bool → result (list Move))
     (apply_move : State → Move → bool → result State)
     (evaluate : State → result Z) (is_terminal : State → result bool)
     (fuel : nat) (state : State) (depth : Z) (maximizing : bool),
     depth = 0 ∨ is_terminal state = Ok true →
     minimax get_moves apply_move evaluate is_terminal
       (S fuel) state depth maximizing =
     (let! v := evaluate state in Ok (Fin v, None))) ∧
  (∀ (self : TicTacToeAdapter) (fuel : nat) (state : list string)
     (depth : Z) (maximizing : bool),
     Z.of_nat (length state) = size self * size self →
     get_moves self state maximizing = [] ∨ depth = 0 →
     ∃ v, evaluate self state = Ok v ∧
          minimax_of self (S fuel) state depth maximizing =
          Ok (Fin v, None)).
Proof.
  split.
  - intros. by apply minimax_base.
  - intros self fuel state depth mx Hlen H.
    destruct (evaluate_value self state Hlen) as (wc & wh & _ & _ & Hv).
    eexists. split; [exact Hv|].
    unfold minimax_of. rewrite minimax_base, Hv; [reflexivity|].
    destruct H as [H|H]; [right|by left].
    eapply no_moves_terminal; eauto.
Qed.

Lemma minimax_base_case_witness :
  (minimax stuck_get_moves stuck_apply_move stuck_evaluate stuck_is_terminal
     1 tt 0 true = Ok (Fin 7, None)) ∧
  (∃ v, evaluate ttt drawn = Ok v ∧
        minimax_of ttt 1 drawn 9 true = Ok (Fin v, None)).
Proof.
  destruct minimax_base_case as [Hgeneric Hboard]. split.
  - apply (Hgeneric unit unit stuck_get_moves stuck_apply_move
             stuck_evaluate stuck_is_terminal 0%nat tt 0 true).
    left. reflexivity.
  - apply (Hboard ttt 0%nat drawn 9 true); [reflexivity|].
    left. reflexivity.
Defined.

(** ** The search on boards *)

Lemma sorted_lookup_lt (l : list Z) (i j : nat) (x y : Z) :
  StronglySorted Z.lt l → l !! i = Some x → l !! j = Some y →
  (i < j)%nat → x < y.
Proof.
  intros Hs. revert i j. induction Hs as [|a l Hs IH Ha]; intros i j Hi Hj Hlt.
  - discriminate.
  - destruct j as [|j]; [lia|]. simpl in Hj. destruct i as [|i].
    + injection Hi as <-. rewrite Forall_forall in Ha.
      apply Ha, list_elem_of_lookup. eauto.
    + simpl in Hi. eapply IH; eauto. lia.
Qed.

Lemma sorted_NoDup (l : list Z) : StronglySorted Z.lt l → NoDup l.
Proof.
  intros Hs. apply NoDup_alt. intros i j x Hi Hj.
  destruct (Nat.lt_trichotomy i j) as [H|[H|H]]; [|done|].
  - pose proof (sorted_lookup_lt l i j x x Hs Hi Hj H). lia.
  - pose proof (sorted_lookup_lt l j i x x Hs Hj Hi H). lia.
Qed.

(** A move returned by [get_moves] is applied without error, keeps the
    length of the board and leaves fewer free cells. *)
Lemma apply_move_free (self : TicTacToeAdapter) (board : list string)
    (m : Z) (mx : bool) :
  In m (get_moves self board true) →
  ∃ new, apply_move self board m mx = Ok new ∧
         length new = length board ∧
         (length (get_moves self new true) <
          length (get_moves self board true))%nat.
Proof.
  intros Hm.
  pose proof (get_moves_cells self board true) as (Hin & _ & _).
  apply Hin in Hm as (v & H0 & Hv & Hh & Hc).
  pose proof (lookup_lt_Some _ _ _ Hv) as Hlt.
  unfold apply_move. rewrite setitem_inside by lia.
  eexists. split; [reflexivity|]. split; [apply length_insert|].
  set (new := <[Z.to_nat m := _]> board).
  pose proof (get_moves_cells self new true) as (Hin' & Hs' & _).
  assert (Hnot : ¬ In m (get_moves self new true)).
  { intros (v' & _ & Hv' & Hh' & Hc')%Hin'. unfold new in Hv'.
    rewrite list_lookup_insert_eq in Hv' by done.
    injection Hv' as <-. by destruct mx. }
  assert (Hsub : m :: get_moves self new true ⊆+ get_moves self board true).
  { apply NoDup_submseteq.
    - constructor; [by rewrite list_elem_of_In|by apply sorted_NoDup].
    - intros x [->|Hx]%elem_of_cons; apply list_elem_of_In, Hin.
      + exists v. done.
      + apply list_elem_of_In, Hin' in Hx as (v' & Hx0 & Hv' & Hh' & Hc').
        exists v'. split; [done|]. split; [|done].
        unfold new in Hv'.
        destruct (decide (Z.to_nat m = Z.to_nat x)) as [E|E].
        * rewrite E, list_lookup_insert_eq in Hv' by (rewrite <- E; done).
          injection Hv' as <-. by destruct mx.
        * by rewrite list_lookup_insert_ne in Hv'. }
  apply submseteq_length in Hsub. simpl in Hsub. lia.
Qed.

Lemma Forall2_results {A B} (f : A → result B) (l : list A) :
  (∀ a, In a l → ∃ b, f a = Ok b) →
  ∃ k, Forall2 (fun a b => f a = Ok b) l k.
Proof.
  induction l as [|a l IH]; intros H.
  - exists []. constructor.
  - destruct (H a (or_introl eq_refl)) as [b Hb].
    destruct IH as [k Hk]; [intros; apply H; by right|].
    exists (b :: k). by constructor.
Qed.

(** A board that is not terminal has a free cell. *)
Lemma not_terminal_has_move (self : TicTacToeAdapter) (board : list string)
    (mx : bool) :
  Z.of_nat (length board) = size self * size self →
  is_terminal self board = Ok false →
  get_moves self board mx ≠ [].
Proof.
  intros Hlen Ht Hnil.
  rewrite (no_moves_terminal self board mx Hlen Hnil) in Ht. discriminate.
Qed.

(** The scores of the moves of a board, each finite, when the searches
    below them return finite scores. *)
Lemma move_scores_exist (self : TicTacToeAdapter) (fuel : nat)
    (board : list string) (depth : Z) (mx : bool) :
  (∀ m, In m (get_moves self board mx) →
        ∃ v, move_score self fuel board depth mx m = Ok (Fin v)) →
  ∃ ss, Forall2 (fun m s => move_score self fuel board depth mx m = Ok s)
                (get_moves self board mx) ss ∧
        ∀ s, In s ss → ∃ v, s = Fin v.
Proof.
  intros Hfin.
  destruct (Forall2_results (move_score self fuel board depth mx)
              (get_moves self board mx)) as [ss Hss].
  { intros m Hm. destruct (Hfin m Hm) as [v Hv]. eauto. }
  exists ss. split; [exact Hss|].
  intros s [j Hj]%list_elem_of_In%list_elem_of_lookup.
  destruct (Forall2_lookup_r _ _ _ _ _ Hss Hj) as (m & Hm & Hms).
  destruct (Hfin m) as [v Hv].
  { apply list_elem_of_In, list_elem_of_lookup. eauto. }
  exists v. congruence.
Qed.

(** On a board of [size * size] cells the search returns, with a finite
    score, as soon as the fuel exceeds the number of free cells: every move
    fills a cell, and a full board is terminal. *)
Lemma minimax_of_finite (self : TicTacToeAdapter) (fuel : nat) :
  ∀ (board : list string) (depth : Z) (mx : bool),
    Z.of_nat (length board) = size self * size self →
    (length (get_moves self board true) < fuel)%nat →
    ∃ v bm, minimax_of self fuel board depth mx = Ok (Fin v, bm).
Proof.
  induction fuel as [|fuel IH]; intros board depth mx Hlen Hfuel; [lia|].
  destruct (evaluate_value self board Hlen) as (wc & wh & _ & _ & Hv).
  assert (Hbase : depth = 0 ∨ is_terminal self board = Ok true →
                  ∃ v bm, minimax_of self (S fuel) board depth mx
                          = Ok (Fin v, bm)).
  { intros H. unfold minimax_of. rewrite minimax_base, Hv by done.
    simpl. eauto. }
  destruct (decide (depth = 0)) as [Hd|Hd]; [auto|].
  destruct (is_terminal_value self board Hlen) as (? & ? & _ & _ & Ht).
  destruct (_ || _ || _) eqn:Hb in Ht; [auto|]. clear Hbase Hb.
  destruct (move_scores_exist self fuel board depth mx) as (ss & Hss & Hfin).
  { intros m Hm. unfold move_score, child_score.
    replace (get_moves self board mx) with (get_moves self board true) in Hm
      by (by destruct mx).
    destruct (apply_move_free self board m mx Hm) as (new & -> & Hl & Hless).
    simpl. destruct (IH new (depth - 1) (negb mx)) as (v & bm & Hr).
    - by rewrite Hl.
    - lia.
    - unfold minimax_of in Hr. rewrite Hr. simpl. eauto. }
  destruct (minimax_first_best _ _ _ _ fuel board depth mx _ ss Hd Ht
              eq_refl Hss) as (best & bm & Hr & _ & Hcase).
  unfold minimax_of. rewrite Hr. destruct bm as [m|].
  - destruct Hcase as (i & _ & Hi & _).
    destruct (Hfin best) as [v ->].
    { apply list_elem_of_In, list_elem_of_lookup. eauto. }
    eauto.
  - destruct Hcase as [_ Hall].
    pose proof (not_terminal_has_move self board mx Hlen Ht) as Hne.
    apply Forall2_length in Hss.
    destruct ss as [|s ss]; [by destruct (get_moves self board mx)|].
    destruct (Hfin s (or_introl eq_refl)) as [v ->].
    specialize (Hall (Fin v) (or_introl eq_refl)). by destruct mx.
Qed.

(** [best_move] on a board that is not terminal: a move is returned, its
    score is the greatest of the scores of the free cells, and it is the
    free cell of lowest index with that score. *)
Lemma best_move_lowest_index (self : TicTacToeAdapter) (fuel : nat)
    (board : list string) (depth : Z) :
  Z.of_nat (length board) = size self * size self →
  depth ≠ 0 →
  is_terminal self board = Ok false →
  (length (get_moves self board true) ≤ fuel)%nat →
  ∃ move best,
    best_move (S fuel) self board depth = Ok (Some move) ∧
    In move (get_moves self board true) ∧
    move_score self fuel board depth true move = Ok (Fin best) ∧
    ∀ m, In m (get_moves self board true) →
         ∃ v, move_score self fuel board depth true m = Ok (Fin v) ∧
              v ≤ best ∧ (v = best → move ≤ m).
Proof.
  intros Hlen Hd Ht Hfuel.
  pose proof (get_moves_cells self board true) as (_ & Hsorted & _).
  destruct (move_scores_exist self fuel board depth true) as (ss & Hss & Hfin).
  { intros m Hm. unfold move_score, child_score.
    destruct (apply_move_free self board m true Hm) as (new & -> & Hl & Hless).
    simpl. destruct (minimax_of_finite self fuel new (depth - 1) false)
      as (v & bm & Hr); [by rewrite Hl|lia|].
    unfold minimax_of in Hr. rewrite Hr. simpl. eauto. }
  destruct (minimax_first_best _ _ _ _ fuel board depth true _ ss Hd Ht
              eq_refl Hss) as (best & bm & Hr & Hopt & Hcase).
  destruct bm as [move|].
  - destruct Hcase as (i & Hi & Hsi & Hfirst).
    destruct (Hfin best) as [b ->].
    { apply list_elem_of_In, list_elem_of_lookup. eauto. }
    exists move, b. unfold best_move, minimax_of. rewrite Hr. simpl.
    split; [reflexivity|].
    split; [apply list_elem_of_In, list_elem_of_lookup; eauto|].
    split.
    { destruct (Forall2_lookup_l _ _ _ _ _ Hss Hi) as (s & Hs & Hms).
      congruence. }
    intros m [j Hj]%list_elem_of_In%list_elem_of_lookup.
    destruct (Forall2_lookup_l _ _ _ _ _ Hss Hj) as (s & Hs & Hms).
    destruct (Hfin s) as [v ->].
    { apply list_elem_of_In, list_elem_of_lookup. eauto. }
    exists v. split; [exact Hms|].
    assert (Hle : better true (Fin v) (Fin b) = false).
    { apply Hopt, list_elem_of_In, list_elem_of_lookup. eauto. }
    simpl in Hle. apply Z.ltb_ge in Hle. split; [exact Hle|].
    intros ->. destruct (Nat.lt_trichotomy i j) as [H|[H|H]].
    + pose proof (sorted_lookup_lt _ i j move m Hsorted Hi Hj H). lia.
    + subst j. rewrite Hi in Hj. injection Hj as ->. lia.
    + specialize (Hfirst j (Fin b) H Hs). simpl in Hfirst.
      apply Z.ltb_lt in Hfirst. lia.
  - destruct Hcase as [_ Hall].
    pose proof (not_terminal_has_move self board true Hlen Ht) as Hne.
    apply Forall2_length in Hss.
    destruct ss as [|s ss]; [by destruct (get_moves self board true)|].
    destruct (Hfin s (or_introl eq_refl)) as [v ->].
    by specialize (Hall (Fin v) (or_introl eq_refl)).
Qed.



(** The tie on [two_wins]: cells 2 and 7 both win, cell 2 is returned. *)
Example best_move_two_wins :
  get_moves ttt two_wins true = [2; 3; 7] ∧
  move_score ttt 3 two_wins 1 true 2 = Ok (Fin 100) ∧
  move_score ttt 3 two_wins 1 true 7 = Ok (Fin 100) ∧
  best_move 4 ttt two_wins 1 = Ok (Some 2).
Proof. repeat split; reflexivity. Qed.

(** * Further properties of the adapter and the engine *)

(** ** Terminal boards *)

(** X1: on a board of [size * size] cells [is_terminal] returns, and
    returns [True] exactly when [check_winner] holds for the human, or for
    the computer, or [get_moves] is empty. *)
Theorem is_terminal_iff_won_or_no_moves (self : TicTacToeAdapter)
    (state : list string) (maximizing : bool) :
  Z.of_nat (length state) = size self * size self →
  ∃ b, is_terminal self state = Ok b ∧
       (b = true ↔
        check_winner state (human self) (size self) (to_win self) = Ok true ∨
        check_winner state (computer self) (size self) (to_win self)
          = Ok true ∨
        get_moves self state maximizing = []).
Proof.
  intros Hlen.
  destruct (is_terminal_value self state Hlen) as (wh & wc & Hwh & Hwc & ->).
  eexists. split; [reflexivity|].
  rewrite Hwh, Hwc, (no_moves_board_full self state maximizing).
  rewrite !orb_true_iff. split.
  - intros [[->| ->]|H]; auto.
  - intros [[= ->]|[[= ->]|H]]; auto.
Qed.

Lemma is_terminal_iff_won_or_no_moves_witness :
  ∃ b, is_terminal ttt drawn = Ok b ∧
       (b = true ↔
        check_winner drawn "X" 3 3 = Ok true ∨
        check_winner drawn "O" 3 3 = Ok true ∨
        get_moves ttt drawn true = []).
Proof.
  apply (is_terminal_iff_won_or_no_moves ttt drawn true). reflexivity.
Defined.

(** X2: on a board of [size * size] cells, with fuel for its free cells,
    [best_move] returns; it returns [None] exactly when [depth == 0] or the
    board is terminal, and a move it returns is a free cell. *)
Theorem best_move_none_iff (self : TicTacToeAdapter) (fuel : nat)
    (board : list string) (depth : Z) :
  Z.of_nat (length board) = size self * size self →
  (length (get_moves self board true) ≤ fuel)%nat →
  ∃ r, best_move (S fuel) self board depth = Ok r ∧
       (r = None ↔ depth = 0 ∨ is_terminal self board = Ok true) ∧
       (∀ m, r = Some m → In m (get_moves self board true)).
Proof.
  intros Hlen Hfuel.
  destruct (evaluate_value self board Hlen) as (wc & wh & _ & _ & Hv).
  assert (Hbase : depth = 0 ∨ is_terminal self board = Ok true →
                  best_move (S fuel) self board depth = Ok None).
  { intros H. unfold best_move, minimax_of.
    by rewrite minimax_base, Hv by done. }
  destruct (decide (depth = 0)) as [Hd|Hd].
  { exists None. split; [auto|]. split; [tauto|discriminate]. }
  destruct (is_terminal_value self board Hlen) as (? & ? & _ & _ & Ht).
  destruct (_ || _ || _) eqn:Hb in Ht.
  { exists None. split; [auto|]. split; [tauto|discriminate]. }
  destruct (best_move_lowest_index self fuel board depth Hlen Hd Ht Hfuel)
    as (move & best & Hr & Hin & _).
  exists (Some move). split; [exact Hr|]. split.
  - split; [discriminate|]. intros [?|H]; [done|]. congruence.
  - by intros m [= <-].
Qed.

Lemma best_move_none_iff_witness :
  ∃ r, best_move 4 ttt two_wins 1 = Ok r ∧
       (r = None ↔ 1 = 0 ∨ is_terminal ttt two_wins = Ok true) ∧
       (∀ m, r = Some m → In m (get_moves ttt two_wins true)).
Proof.
  apply (best_move_none_iff ttt 3 two_wins 1); [reflexivity|].
  simpl. lia.
Defined.

(** X3: a search on a board of [size * size] cells returns a finite
    score, raising nothing, for every depth, negative ones included, as
    soon as the fuel exceeds the number of free cells. *)
Theorem search_returns_finite_score (self : TicTacToeAdapter) (fuel : nat)
    (board : list string) (depth : Z) (maximizing : bool) :
  Z.of_nat (length board) = size self * size self →
  (length (get_moves self board true) < fuel)%nat →
  ∃ v move, minimax_of self fuel board depth maximizing = Ok (Fin v, move).
Proof. apply minimax_of_finite. Qed.

Lemma search_returns_finite_score_witness :
  ∃ v move, minimax_of ttt 4 two_wins (-1) true = Ok (Fin v, move).
Proof.
  apply (search_returns_finite_score ttt 4 two_wins (-1) true);
    [reflexivity|]. simpl. lia.
Defined.

(** ** Moves and free cells *)

Lemma free_cells_after_move (self : TicTacToeAdapter)
    (board : list string) (move : Z) (maximizing : bool) :
  In move (get_moves self board maximizing) →
  ∃ new, apply_move self board move maximizing = Ok new ∧
    (∀ m, In m (get_moves self new (negb maximizing)) ↔
          In m (get_moves self board maximizing) ∧ m ≠ move) ∧
    S (length (get_moves self new (negb maximizing))) =
    length (get_moves self board maximizing).
Proof.
  intros Hm.
  pose proof (get_moves_cells self board maximizing) as (Hin & Hs & _).
  destruct (proj1 (Hin move) Hm) as (v & H0 & Hv & Hh & Hc).
  pose proof (lookup_lt_Some _ _ _ Hv) as Hlt.
  unfold apply_move. rewrite setitem_inside by lia.
  eexists. split; [reflexivity|].
  set (new := <[Z.to_nat move := _]> board).
  pose proof (get_moves_cells self new (negb maximizing)) as (Hin' & Hs' & _).
  assert (Hiff : ∀ m, In m (get_moves self new (negb maximizing)) ↔
                      In m (get_moves self board maximizing) ∧ m ≠ move).
  { intros m. rewrite Hin', Hin. unfold new. split.
    - intros (w & Hm0 & Hw & Hwh & Hwc).
      destruct (decide (Z.to_nat move = Z.to_nat m)) as [E|E].
      + rewrite <- E, list_lookup_insert_eq in Hw by done.
        injection Hw as <-. by destruct maximizing.
      + rewrite list_lookup_insert_ne in Hw by done.
        split; [by exists w|]. intros ->. done.
    - intros [(w & Hm0 & Hw & Hwh & Hwc) Hne]. exists w.
      split; [done|]. split; [|done].
      rewrite list_lookup_insert_ne by lia. done. }
  split; [exact Hiff|].
  change (length (move :: get_moves self new (negb maximizing)) =
          length (get_moves self board maximizing)).
  apply Permutation_length, NoDup_Permutation.
  - constructor; [|by apply sorted_NoDup].
    rewrite list_elem_of_In, Hiff. tauto.
  - by apply sorted_NoDup.
  - intros m. rewrite elem_of_cons, !list_elem_of_In, Hiff.
    destruct (decide (m = move)) as [->|]; [tauto|tauto].
Qed.

(** X4: applying a move returned by [get_moves] removes that move, and
    only that move, from the moves of the board: the free cells of the new
    board are those of the old one but [move], one fewer. *)
Theorem apply_move_removes_move (self : TicTacToeAdapter)
    (board : list string) (move : Z) (maximizing : bool) :
  In move (get_moves self board maximizing) →
  ∃ new, apply_move self board move maximizing = Ok new ∧
    (∀ m, In m (get_moves self new (negb maximizing)) ↔
          In m (get_moves self board maximizing) ∧ m ≠ move) ∧
    S (length (get_moves self new (negb maximizing))) =
    length (get_moves self board maximizing).
Proof. apply free_cells_after_move. Qed.

Lemma apply_move_removes_move_witness :
  ∃ new, apply_move ttt two_wins 3 true = Ok new ∧
    (∀ m, In m (get_moves ttt new (negb true)) ↔
          In m (get_moves ttt two_wins true) ∧ m ≠ 3) ∧
    S (length (get_moves ttt new (negb true))) =
    length (get_moves ttt two_wins true).
Proof.
  apply (apply_move_removes_move ttt two_wins 3 true).
  vm_compute. tauto.
Defined.

(** X5: [apply_move] raises [IndexError] exactly for an index outside
    [-len(state) .. len(state) - 1]; an index below zero inside that range
    counts from the end of the board. *)
Theorem apply_move_index_bounds (self : TicTacToeAdapter)
    (state : list string) (move : Z) (maximizing : bool) :
  let n := Z.of_nat (length state) in
  (apply_move self state move maximizing = Raise IndexError ↔
   move < - n ∨ n ≤ move) ∧
  (- n ≤ move < 0 →
   apply_move self state move maximizing =
   Ok (<[Z.to_nat (n + move) := mover self maximizing]> state)).
Proof.
  intros n. unfold apply_move, setitem, norm_index. fold n.
  destruct (Z.ltb_spec move 0);
    match goal with |- context [(0 <=? ?a) && (?a <? ?b)] =>
      destruct (Z.leb_spec 0 a); destruct (Z.ltb_spec a b) end;
    simpl; (split; [split; [try discriminate; lia | try lia; try done]|]);
    intros; try lia.
  unfold mover. do 3 f_equal. lia.
Qed.

Lemma apply_move_index_bounds_witness :
  (apply_move ttt drawn 9 true = Raise IndexError ↔
   9 < - Z.of_nat (length drawn) ∨ Z.of_nat (length drawn) ≤ 9) ∧
  apply_move ttt drawn (-1) true =
  Ok ["X"; "O"; "X"; "X"; "O"; "O"; "O"; "X"; "O"]%string.
Proof.
  split.
  - apply (apply_move_index_bounds ttt drawn 9 true).
  - apply (apply_move_index_bounds ttt drawn (-1) true). simpl. lia.
Defined.

(** ** Degenerate run lengths *)

Lemma range_empty (lo hi : Z) : hi ≤ lo → range lo hi = [].
Proof.
  intros H. unfold range, seqZ.
  replace (Z.to_nat (hi - lo)) with 0%nat by lia. reflexivity.
Qed.

Lemma range_cons (lo hi : Z) : lo < hi → range lo hi = lo :: range (lo + 1) hi.
Proof.
  intros H. unfold range. rewrite seqZ_cons by lia.
  do 2 f_equal; lia.
Qed.

Lemma windows_no_column {A B C} (line : A → B → C) (rs : list A) :
  flat_map (fun r => map (fun c => line r c) []) rs = [].
Proof. induction rs as [|r rs IH]; [reflexivity|exact IH]. Qed.

(** X6: with a run length greater than the board size there is no window:
    [generate_lines] is empty and, on every list, whatever its length,
    [check_winner] returns [False], [evaluate] returns 0 and [is_terminal]
    holds only for a list of marks. *)
Theorem run_longer_than_board (self : TicTacToeAdapter) (board : list string)
    (player : string) :
  size self < to_win self →
  generate_lines self = [] ∧
  check_winner board player (size self) (to_win self) = Ok false ∧
  evaluate self board = Ok 0 ∧
  is_terminal self board = Ok (forallb (is_mark self) board).
Proof.
  intros H.
  assert (Hlines : generate_lines self = []).
  { unfold generate_lines, row_lines, col_lines, diag_lines, anti_lines.
    rewrite (range_empty 0 (size self - to_win self + 1)) by lia.
    by rewrite !windows_no_column. }
  assert (Hcw : ∀ p, check_winner board p (size self) (to_win self)
                     = Ok false).
  { intros p. by rewrite check_winner_lines, Hlines. }
  split; [exact Hlines|]. split; [apply Hcw|].
  unfold evaluate, is_terminal. rewrite !Hcw, Hlines. done.
Qed.

Lemma run_longer_than_board_witness :
  generate_lines {| size := 2; to_win := 3; human := "X"; computer := "O" |}
    = [] ∧
  check_winner [] "X" 2 3 = Ok false ∧
  evaluate {| size := 2; to_win := 3; human := "X"; computer := "O" |} []
    = Ok 0 ∧
  is_terminal {| size := 2; to_win := 3; human := "X"; computer := "O" |} []
    = Ok (forallb
            (is_mark {| size := 2; to_win := 3;
                        human := "X"; computer := "O" |}) []).
Proof.
  apply (run_longer_than_board
           {| size := 2; to_win := 3; human := "X"; computer := "O" |}
           [] "X").
  simpl. lia.
Defined.

(** X7: with a run length of zero or less and a board size of at least
    one, the first window is empty and [all] of nothing is true:
    [check_winner] returns [True] for every player on every list, so
    [evaluate] returns 100 and every board is terminal. *)
Theorem run_of_no_cell (self : TicTacToeAdapter) (board : list string)
    (player : string) :
  to_win self ≤ 0 → 1 ≤ size self →
  check_winner board player (size self) (to_win self) = Ok true ∧
  evaluate self board = Ok 100 ∧
  is_terminal self board = Ok true.
Proof.
  intros HK HN.
  assert (Hcw : ∀ p, check_winner board p (size self) (to_win self)
                     = Ok true).
  { intros p. rewrite check_winner_lines.
    unfold generate_lines, row_lines.
    rewrite (range_cons 0 (size self)) by lia. simpl.
    rewrite (range_cons 0 (size self - to_win self + 1)) by lia. simpl.
    by rewrite (range_empty 0 (to_win self)) by lia. }
  split; [apply Hcw|].
  unfold evaluate, is_terminal. by rewrite !Hcw.
Qed.

Lemma run_of_no_cell_witness :
  check_winner [] "X" 1 0 = Ok true ∧
  evaluate {| size := 1; to_win := 0; human := "X"; computer := "O" |} []
    = Ok 100 ∧
  is_terminal {| size := 1; to_win := 0; human := "X"; computer := "O" |} []
    = Ok true.
Proof.
  apply (run_of_no_cell
           {| size := 1; to_win := 0; human := "X"; computer := "O" |}
           [] "X"); simpl; lia.
Defined.

(** ** Searching deeper than the board *)

Lemma search_ext {State Move : Type}
    (apply_move : State → Move → bool → result State) (mx : bool)
    (rec rec' : State → result (score * option Move)) (state : State)
    (ms : list Move) (b : score) (bm : option Move) :
  (∀ m st, In m ms → apply_move state m mx = Ok st → rec st = rec' st) →
  search apply_move mx rec state ms b bm =
  search apply_move mx rec' state ms b bm.
Proof.
  revert b bm. induction ms as [|m ms IH]; intros b bm Hrec; simpl;
    [reflexivity|].
  destruct (apply_move state m mx) as [st| |] eqn:Hst; simpl;
    [|reflexivity..].
  rewrite <- (Hrec m st (or_introl eq_refl) Hst).
  destruct (rec st) as [r| |]; simpl; [|reflexivity..].
  destruct (better mx (fst r) b); apply IH; intros; eapply Hrec; eauto;
    by right.
Qed.

(** X8: on a board of [size * size] cells a depth that is negative, or at
    least the number of free cells, is never the reason a search stops: any
    two such depths give the same score and the same move. *)
Theorem search_depth_saturates (self : TicTacToeAdapter) (fuel : nat) :
  ∀ (board : list string) (depth depth' : Z) (maximizing : bool),
    Z.of_nat (length board) = size self * size self →
    depth < 0 ∨ Z.of_nat (length (get_moves self board true)) ≤ depth →
    depth' < 0 ∨ Z.of_nat (length (get_moves self board true)) ≤ depth' →
    minimax_of self fuel board depth maximizing =
    minimax_of self fuel board depth' maximizing.
Proof.
  induction fuel as [|fuel IH]; intros board d d' mx Hlen Hd Hd';
    [reflexivity|].
  assert (Hfull : d = 0 ∨ d' = 0 → is_terminal self board = Ok true).
  { intros H0. apply (no_moves_terminal self board true Hlen).
    destruct (get_moves self board true); [reflexivity|].
    simpl in Hd, Hd'. lia. }
  unfold minimax_of.
  destruct (is_terminal_value self board Hlen) as (? & ? & _ & _ & Ht).
  destruct (_ || _ || _) eqn:Hb in Ht.
  { by rewrite !minimax_base by auto. }
  destruct (decide (d = 0)) as [H0|H0]; [rewrite Hfull in Ht by auto; done|].
  destruct (decide (d' = 0)) as [H0'|H0'];
    [rewrite Hfull in Ht by auto; done|].
  rewrite !minimax_step by done. simpl.
  apply search_ext. intros m st Hm Hst.
  replace (get_moves self board mx) with (get_moves self board true) in Hm
    by (by destruct mx).
  destruct (apply_move_free self board m mx Hm) as (new & Hnew & Hl & Hless).
  rewrite Hst in Hnew. injection Hnew as <-.
  apply (IH st (d - 1) (d' - 1) (negb mx)); [by rewrite Hl|lia|lia].
Qed.

Lemma search_depth_saturates_witness :
  minimax_of ttt 4 two_wins 3 true = minimax_of ttt 4 two_wins (-1) true.
Proof.
  apply (search_depth_saturates ttt 4 two_wins 3 (-1) true).
  - reflexivity.
  - right. simpl. lia.
  - left. lia.
Defined.

(** ** The scale of [evaluate] *)

Lemma line_value_swap_roles (self : TicTacToeAdapter) (state : list string)
    (line : list Z) :
  line_value (swap_roles self) state line = - line_value self state line.
Proof.
  unfold line_value. simpl.
  pose proof (marks_in_nonneg state (computer self) line).
  pose proof (marks_in_nonneg state (human self) line).
  repeat case_bool_decide; lia.
Qed.

Lemma heuristic_swap_roles (self : TicTacToeAdapter) (state : list string) :
  heuristic (swap_roles self) state = - heuristic self state.
Proof.
  unfold heuristic.
  change (generate_lines (swap_roles self)) with (generate_lines self).
  induction (generate_lines self) as [|line lines IH]; simpl; [reflexivity|].
  rewrite IH, line_value_swap_roles. lia.
Qed.

(** X9: [evaluate] is zero-sum. On a board of [size * size] cells on which
    the two players have not both a completed line, exchanging the roles of
    the two marks negates the score. *)
Theorem evaluate_swap_roles (self : TicTacToeAdapter) (state : list string) :
  Z.of_nat (length state) = size self * size self →
  check_winner state (human self) (size self) (to_win self) = Ok false ∨
  check_winner state (computer self) (size self) (to_win self) = Ok false →
  ∃ v, evaluate self state = Ok v ∧
       evaluate (swap_roles self) state = Ok (- v).
Proof.
  intros Hlen Hnot.
  destruct (evaluate_value self state Hlen) as (wc & wh & Hwc & Hwh & ->).
  destruct (evaluate_value (swap_roles self) state Hlen)
    as (wc' & wh' & Hwc' & Hwh' & ->).
  simpl in Hwc', Hwh'. rewrite Hwh in Hwc'. rewrite Hwc in Hwh'.
  injection Hwc' as <-. injection Hwh' as <-.
  eexists. split; [reflexivity|]. f_equal.
  rewrite heuristic_swap_roles.
  destruct wc, wh; try reflexivity.
  destruct Hnot as [H|H]; congruence.
Qed.

Lemma evaluate_swap_roles_witness :
  ∃ v, evaluate ttt live_pair = Ok v ∧
       evaluate (swap_roles ttt) live_pair = Ok (- v).
Proof.
  apply (evaluate_swap_roles ttt live_pair); [reflexivity|].
  left. reflexivity.
Defined.

Lemma marks_in_le_length (state : list string) (mark : string)
    (line : list Z) :
  marks_in state mark line ≤ Z.of_nat (length line).
Proof.
  unfold marks_in. apply inj_le, List.filter_length_le.
Qed.

(** A line all of whose cells are counted is completed. *)
Lemma marks_in_all_completed (state : list string) (mark : string)
    (line : list Z) :
  marks_in state mark line = Z.of_nat (length line) →
  completed state mark line.
Proof.
  unfold marks_in, completed, holds.
  induction line as [|i line IH]; simpl; [intros _ ? []|].
  pose proof (List.filter_length_le
    (fun i => bool_decide (state !! Z.to_nat i = Some mark)) line) as Hle.
  case_bool_decide as Hi; simpl; intros Hlen; [|lia].
  intros j [<-|Hj]; [exact Hi|]. apply IH; [lia|exact Hj].
Qed.

Lemma lines_value_bounded (self : TicTacToeAdapter) (state : list string)
    (bound : Z) (lines : list (list Z)) :
  (∀ line, In line lines → Z.abs (line_value self state line) ≤ bound) →
  Z.abs (foldr (fun line total => line_value self state line + total)
               0 lines)
  ≤ bound * Z.of_nat (length lines).
Proof.
  induction lines as [|line lines IH]; intros Hb; simpl; [lia|].
  specialize (Hb line (or_introl eq_refl)) as Hline.
  specialize (IH (fun l Hl => Hb l (or_intror Hl))). lia.
Qed.

(** Where nobody has won no line is completed, so a line counts at most
    [to_win - 1] marks. *)
Lemma open_heuristic_bounded (self : TicTacToeAdapter)
    (state : list string) :
  Z.of_nat (length state) = size self * size self →
  1 ≤ to_win self ≤ size self →
  check_winner state (computer self) (size self) (to_win self) = Ok false →
  check_winner state (human self) (size self) (to_win self) = Ok false →
  Z.abs (heuristic self state) ≤ heuristic_bound self.
Proof.
  intros Hlen HK Hwc Hwh. unfold heuristic_bound.
  set (N := size self) in *. set (K := to_win self) in *.
  assert (Hcount : Z.of_nat (length (generate_lines self)) =
                   2 * N * (N - K + 1) + 2 * (N - K + 1) ^ 2).
  { unfold generate_lines. fold N K. rewrite !length_app.
    pose proof (length_row_lines N K HK). pose proof (length_col_lines N K HK).
    pose proof (length_diag_lines N K HK).
    pose proof (length_anti_lines N K HK). lia. }
  rewrite <- Hcount. apply lines_value_bounded. intros line Hline.
  assert (HlenK : Z.of_nat (length line) = K).
  { apply length_line; [fold K; lia|done]. }
  assert (Hopen : ∀ mark,
    check_winner state mark (size self) (to_win self) = Ok false →
    marks_in state mark line ≤ K - 1).
  { intros mark Hw.
    pose proof (marks_in_le_length state mark line) as Hle.
    destruct (decide (marks_in state mark line = K)) as [E|]; [|lia].
    destruct (check_winner_decides self state mark Hlen) as (b & Hb & Hiff).
    rewrite Hw in Hb. injection Hb as <-.
    assert (false = true); [|done]. apply Hiff. exists line.
    split; [done|]. apply marks_in_all_completed. lia. }
  pose proof (Hopen _ Hwc). pose proof (Hopen _ Hwh).
  pose proof (marks_in_nonneg state (computer self) line).
  pose proof (marks_in_nonneg state (human self) line).
  unfold line_value. repeat case_bool_decide; lia.
Qed.

(** X10: on a board of [size * size] cells, for [1 <= to_win <= size],
    [evaluate] returns 100, or -100, or a heuristic score of magnitude at
    most [to_win - 1] per generated line, no line being completed. *)
Theorem evaluate_bounded (self : TicTacToeAdapter) (state : list string) :
  let N := size self in
  let K := to_win self in
  Z.of_nat (length state) = N * N →
  1 ≤ K ≤ N →
  ∃ v, evaluate self state = Ok v ∧
       (v = 100 ∨ v = -100 ∨
        Z.abs v ≤ (K - 1) * (2 * N * (N - K + 1) + 2 * (N - K + 1) ^ 2)).
Proof.
  intros N K Hlen HK.
  destruct (evaluate_value self state Hlen) as (wc & wh & Hwc & Hwh & ->).
  eexists. split; [reflexivity|].
  destruct wc; [by left|]. destruct wh; [by right; left|]. right. right.
  by apply open_heuristic_bounded.
Qed.

Lemma evaluate_bounded_witness :
  ∃ v, evaluate ttt live_pair = Ok v ∧
       (v = 100 ∨ v = -100 ∨
        Z.abs v ≤ (3 - 1) * (2 * 3 * (3 - 3 + 1) + 2 * (3 - 3 + 1) ^ 2)).
Proof.
  apply (evaluate_bounded ttt live_pair); [reflexivity|]. simpl. lia.
Defined.

(** ** Taking a win *)

(** At depth 1 the score of a move is the static evaluation of the board
    it leads to. *)
Lemma move_score_depth_1 (self : TicTacToeAdapter) (fuel : nat)
    (board : list string) (mx : bool) (m : Z) :
  move_score self (S fuel) board 1 mx m =
  (let! new := apply_move self board m mx in
   let! v := evaluate self new in Ok (Fin v)).
Proof.
  unfold move_score, child_score.
  destruct (apply_move self board m mx) as [new| |]; simpl; [|reflexivity..].
  destruct (evaluate self new); reflexivity.
Qed.

(** X11: where a win outranks every heuristic score (the bound of the
    heuristic is below 100, as on the 3x3 board), a search of depth 1 takes
    a win when there is one: on a board that is not terminal and has a free
    cell completing a line of the computer, [best_move] returns the lowest
    such cell. *)
Theorem best_move_takes_win (self : TicTacToeAdapter) (fuel : nat)
    (board : list string) (m : Z) (new : list string) :
  Z.of_nat (length board) = size self * size self →
  1 ≤ to_win self ≤ size self →
  heuristic_bound self < 100 →
  is_terminal self board = Ok false →
  (length (get_moves self board true) ≤ fuel)%nat →
  In m (get_moves self board true) →
  apply_move self board m true = Ok new →
  check_winner new (computer self) (size self) (to_win self) = Ok true →
  ∃ move won,
    best_move (S fuel) self board 1 = Ok (Some move) ∧
    In move (get_moves self board true) ∧
    apply_move self board move true = Ok won ∧
    check_winner won (computer self) (size self) (to_win self) = Ok true ∧
    move ≤ m.
Proof.
  intros Hlen HK Hbound Ht Hfuel Hm Hnew Hwin.
  destruct (best_move_lowest_index self fuel board 1 Hlen ltac:(lia) Ht Hfuel)
    as (move & best & Hr & Hin & Hscore & Hall).
  destruct fuel as [|fuel].
  { destruct (get_moves self board true); [destruct Hm|simpl in Hfuel; lia]. }
  destruct (Hall m Hm) as (v & Hv & Hle & Hfirst).
  rewrite move_score_depth_1, Hnew in Hv. simpl in Hv.
  unfold evaluate in Hv. rewrite Hwin in Hv. simpl in Hv.
  injection Hv as <-.
  rewrite move_score_depth_1 in Hscore.
  destruct (apply_move_free self board move true Hin)
    as (won & Hwon & Hl & _).
  rewrite Hwon in Hscore. simpl in Hscore.
  assert (Hlen' : Z.of_nat (length won) = size self * size self)
    by (by rewrite Hl).
  destruct (evaluate_value self won Hlen') as (wc & wh & Hwc & Hwh & Hev).
  rewrite Hev in Hscore. simpl in Hscore. injection Hscore as Hbest.
  exists move, won. split; [exact Hr|]. split; [exact Hin|].
  split; [exact Hwon|].
  destruct wc.
  - split; [exact Hwc|]. apply Hfirst. lia.
  - destruct wh; [lia|].
    pose proof (open_heuristic_bounded self won Hlen' HK Hwc Hwh). lia.
Qed.

Lemma best_move_takes_win_witness :
  ∃ move won,
    best_move 4 ttt two_wins 1 = Ok (Some move) ∧
    In move (get_moves ttt two_wins true) ∧
    apply_move ttt two_wins move true = Ok won ∧
    check_winner won "O" 3 3 = Ok true ∧
    move ≤ 7.
Proof.
  apply (best_move_takes_win ttt 3 two_wins 7
           ["O"; "O"; "3"; "4"; "O"; "X"; "X"; "O"; "X"]%string).
  - reflexivity.
  - simpl. lia.
  - reflexivity.
  - reflexivity.
  - simpl. lia.
  - vm_compute. tauto.
  - reflexivity.
  - reflexivity.
Defined.

(** ** The initial board *)

Lemma pretty_N_char_digit (x : N) : is_digit (pretty_N_char x) = true.
Proof. unfold pretty_N_char. by repeat case_match. Qed.

Lemma pretty_N_go_digits (x : N) (s : string) :
  all_digits s = true → all_digits (pretty_N_go x s) = true.
Proof.
  revert s. induction (N.lt_wf_0 x) as [x _ IH]; intros s Hs.
  assert (x = 0 ∨ 0 < x)%N as [->|Hx] by lia.
  - by rewrite pretty_N_go_0.
  - rewrite pretty_N_go_step by done. apply IH.
    + by apply N.div_lt.
    + simpl. by rewrite pretty_N_char_digit.
Qed.

(** The label [str(k)] of a cell is a string of digits. *)
Lemma label_digits (k : Z) : 0 ≤ k → all_digits (pretty k) = true.
Proof.
  intros Hk. destruct k as [|p|p]; [reflexivity| |lia].
  unfold pretty, pretty_Z, pretty, pretty_positive, pretty, pretty_N.
  case_decide; [reflexivity|]. by apply pretty_N_go_digits.
Qed.

Lemma length_create_board (n : Z) :
  Z.of_nat (length (create_board n)) = n * n.
Proof.
  unfold create_board. rewrite length_map, length_range. nia.
Qed.

(** A cell of the initial board holds no mark that is not a number. *)
Lemma create_board_no_mark (self : TicTacToeAdapter) (n : Z) (v : string) :
  all_digits (human self) = false →
  all_digits (computer self) = false →
  In v (create_board n) → is_mark self v = false.
Proof.
  intros Hh Hc (i & <- & Hi%in_range)%in_map_iff.
  pose proof (label_digits (i + 1) ltac:(lia)) as Hd.
  unfold is_mark. apply orb_false_iff.
  split; apply bool_decide_eq_false; intros E; rewrite E in Hd; congruence.
Qed.

Lemma no_mark_all_free (self : TicTacToeAdapter) (k : Z) (l : list string) :
  (∀ v, In v l → is_mark self v = false) →
  map fst (List.filter (fun iv => negb (is_mark self (snd iv)))
                       (zip (seqZ k (Z.of_nat (length l))) l)) =
  seqZ k (Z.of_nat (length l)).
Proof.
  revert k. induction l as [|x l IH]; intros k Hl; [reflexivity|].
  rewrite enumerate_from_cons. simpl.
  rewrite (Hl x (or_introl eq_refl)). simpl.
  rewrite IH by (intros; apply Hl; by right).
  rewrite (seqZ_cons k) by lia. do 2 f_equal; lia.
Qed.

Lemma create_board_moves (self : TicTacToeAdapter) (n : Z) (mx : bool) :
  all_digits (human self) = false →
  all_digits (computer self) = false →
  get_moves self (create_board n) mx = range 0 (n * n).
Proof.
  intros Hh Hc. unfold get_moves, enumerate, range.
  rewrite !Z.sub_0_r, no_mark_all_free, length_create_board; [done|].
  intros v. by apply create_board_no_mark.
Qed.

(** X12: [create_board(n)] has [n * n] cells, and when neither mark is a
    string of digits (as "X" and "O" are not) every cell of it is free:
    [get_moves] returns all the indices [0 .. n*n - 1]. *)
Theorem create_board_all_free (self : TicTacToeAdapter) (n : Z)
    (maximizing : bool) :
  all_digits (human self) = false →
  all_digits (computer self) = false →
  Z.of_nat (length (create_board n)) = n * n ∧
  get_moves self (create_board n) maximizing = range 0 (n * n).
Proof.
  intros Hh Hc. split; [apply length_create_board|].
  by apply create_board_moves.
Qed.

Lemma create_board_all_free_witness :
  Z.of_nat (length (create_board 3)) = 3 * 3 ∧
  get_moves ttt (create_board 3) true = range 0 (3 * 3).
Proof. apply (create_board_all_free ttt 3 true); reflexivity. Defined.

Lemma no_mark_not_held (self : TicTacToeAdapter) (state : list string)
    (mark : string) (i : Z) :
  (∀ v, In v state → is_mark self v = false) →
  mark = human self ∨ mark = computer self →
  state !! Z.to_nat i ≠ Some mark.
Proof.
  intros Hfree Hmark Hi.
  assert (is_mark self mark = false) as Hm.
  { apply Hfree, list_elem_of_In, list_elem_of_lookup. eauto. }
  unfold is_mark in Hm. apply orb_false_iff in Hm as [H1 H2].
  apply bool_decide_eq_false in H1, H2. tauto.
Qed.

Lemma no_mark_marks_in (self : TicTacToeAdapter) (state : list string)
    (mark : string) (line : list Z) :
  (∀ v, In v state → is_mark self v = false) →
  mark = human self ∨ mark = computer self →
  marks_in state mark line = 0.
Proof.
  intros Hfree Hmark. unfold marks_in.
  induction line as [|i line IH]; simpl; [reflexivity|].
  case_bool_decide as Hi; [|exact IH].
  by destruct (no_mark_not_held self state mark i).
Qed.

Lemma no_mark_no_winner (self : TicTacToeAdapter) (state : list string)
    (mark : string) :
  Z.of_nat (length state) = size self * size self →
  1 ≤ to_win self →
  (∀ v, In v state → is_mark self v = false) →
  mark = human self ∨ mark = computer self →
  check_winner state mark (size self) (to_win self) = Ok false.
Proof.
  intros Hlen HK Hfree Hmark.
  destruct (check_winner_decides self state mark Hlen) as (b & -> & Hiff).
  destruct b; [|reflexivity].
  destruct (proj1 Hiff eq_refl) as (line & Hline & Hdone).
  pose proof (length_line self line ltac:(lia) Hline) as Hl.
  destruct line as [|i line]; [simpl in Hl; lia|].
  destruct (no_mark_not_held self state mark i Hfree Hmark).
  apply Hdone. by left.
Qed.

(** X13: a game starts open. On the initial board of a game with
    [size >= 1] and [to_win >= 1], whose marks are not strings of digits,
    [is_terminal] is false, [evaluate] returns 0, and [best_move], for a
    depth other than 0 and fuel for the [size * size] free cells, returns a
    move. *)
Theorem initial_board_open (self : TicTacToeAdapter) (fuel : nat)
    (depth : Z) :
  all_digits (human self) = false →
  all_digits (computer self) = false →
  1 ≤ size self → 1 ≤ to_win self →
  depth ≠ 0 →
  size self * size self ≤ Z.of_nat fuel →
  is_terminal self (create_board (size self)) = Ok false ∧
  evaluate self (create_board (size self)) = Ok 0 ∧
  ∃ move, best_move (S fuel) self (create_board (size self)) depth
          = Ok (Some move) ∧
          0 ≤ move < size self * size self.
Proof.
  intros Hh Hc HN HK Hd Hfuel.
  set (board := create_board (size self)).
  pose proof (length_create_board (size self)) as Hlen. fold board in Hlen.
  assert (Hfree : ∀ v, In v board → is_mark self v = false).
  { intros v. by apply create_board_no_mark. }
  pose proof (no_mark_no_winner self board (human self) Hlen HK Hfree
                (or_introl eq_refl)) as Hwh.
  pose proof (no_mark_no_winner self board (computer self) Hlen HK Hfree
                (or_intror eq_refl)) as Hwc.
  assert (Ht : is_terminal self board = Ok false).
  { unfold is_terminal. rewrite Hwh, Hwc. simpl. f_equal.
    destruct board as [|v board'] eqn:E; [simpl in Hlen; nia|].
    simpl. by rewrite (Hfree v (or_introl eq_refl)). }
  split; [exact Ht|]. split.
  - unfold evaluate. rewrite Hwc, Hwh. simpl.
    rewrite score_lines_inside.
    + f_equal. induction (generate_lines self) as [|line lines IH];
        simpl; [reflexivity|].
      rewrite Z.add_0_l in IH. rewrite IH. unfold line_value.
      rewrite !(no_mark_marks_in self) by auto.
      by repeat case_bool_decide.
    + intros line i Hline Hi. rewrite Hlen. eapply lines_inside; eauto.
  - pose proof (create_board_moves self (size self) true Hh Hc) as Hmoves.
    fold board in Hmoves.
    destruct (best_move_lowest_index self fuel board depth Hlen Hd Ht)
      as (move & best & Hr & Hin & _).
    { rewrite Hmoves, length_range. lia. }
    exists move. split; [exact Hr|].
    rewrite Hmoves in Hin. apply in_range in Hin. lia.
Qed.

Lemma initial_board_open_witness :
  is_terminal ttt (create_board 3) = Ok false ∧
  evaluate ttt (create_board 3) = Ok 0 ∧
  ∃ move, best_move 10 ttt (create_board 3) 1 = Ok (Some move) ∧
          0 ≤ move < 3 * 3.
Proof.
  apply (initial_board_open ttt 9 1); try reflexivity; simpl; lia.
Defined.

(** ** The random move *)

Lemma get_computer_move_choice (self : TicTacToeAdapter) (pick : nat)
    (board : list string) (mx : bool) :
  human self = "X"%string → computer self = "O"%string →
  get_computer_move pick board = choice pick (get_moves self board mx).
Proof.
  intros Hh Hc. unfold get_computer_move, get_moves, is_mark.
  by rewrite Hh, Hc.
Qed.

Lemma choice_in {A} (pick : nat) (seq : list A) :
  seq ≠ [] → ∃ x, choice pick seq = Ok x ∧ In x seq.
Proof.
  intros Hne. destruct seq as [|a seq]; [done|]. unfold choice.
  destruct (lookup_lt_is_Some_2 (a :: seq) (pick mod length (a :: seq)))
    as [x Hx].
  { apply Nat.mod_upper_bound. simpl. lia. }
  rewrite Hx. exists x. split; [reflexivity|].
  apply list_elem_of_In, list_elem_of_lookup. eauto.
Qed.

Lemma choice_any {A} (seq : list A) (x : A) :
  In x seq → ∃ pick, choice pick seq = Ok x.
Proof.
  intros [j Hj]%list_elem_of_In%list_elem_of_lookup.
  pose proof (lookup_lt_Some _ _ _ Hj) as Hlt.
  exists j. destruct seq as [|a seq]; [done|]. unfold choice.
  by rewrite Nat.mod_small, Hj.
Qed.

(** X14: [get_computer_move] chooses among the moves of [get_moves] for the
    marks "X" and "O": on a board without a free cell it raises
    [IndexError]; otherwise it returns a free cell, whatever the generator
    draws, and every free cell is returned for some draw. *)
Theorem get_computer_move_free_cell (self : TicTacToeAdapter)
    (board : list string) :
  human self = "X"%string → computer self = "O"%string →
  (get_moves self board true = [] →
   ∀ pick, get_computer_move pick board = Raise IndexError) ∧
  (get_moves self board true ≠ [] →
   ∀ pick, ∃ i, get_computer_move pick board = Ok i ∧
                In i (get_moves self board true)) ∧
  (∀ i, In i (get_moves self board true) →
        ∃ pick, get_computer_move pick board = Ok i).
Proof.
  intros Hh Hc. repeat split.
  - intros Hnil pick.
    by rewrite (get_computer_move_choice self pick board true), Hnil.
  - intros Hne pick.
    rewrite (get_computer_move_choice self pick board true) by done.
    by apply choice_in.
  - intros i Hi. destruct (choice_any _ i Hi) as [pick Hpick].
    exists pick.
    by rewrite (get_computer_move_choice self pick board true).
Qed.

Lemma get_computer_move_free_cell_witness :
  (get_moves ttt drawn true = [] →
   ∀ pick, get_computer_move pick drawn = Raise IndexError) ∧
  (get_moves ttt two_wins true ≠ [] →
   ∀ pick, ∃ i, get_computer_move pick two_wins = Ok i ∧
                In i (get_moves ttt two_wins true)).
Proof.
  split.
  - apply (get_computer_move_free_cell ttt drawn); reflexivity.
  - apply (get_computer_move_free_cell ttt two_wins); reflexivity.
Defined.

(** * The game loops *)

(** ** Reading the terminal *)

Lemma io_bind_Returns {A B} (m : io A) (k : A → io B) (inputs : list line)
    (b : B) (unread : list line) :
  io_bind m k inputs = Returns b unread →
  ∃ a mid, m inputs = Returns a mid ∧ k a mid = Returns b unread.
Proof.
  unfold io_bind. destruct (m inputs) as [a mid| |]; try discriminate. eauto.
Qed.

Lemma for_each_ok {A} (body : A → result unit) (l : list A) :
  (∀ a, In a l → body a = Ok tt) → for_each body l = Ok tt.
Proof.
  induction l as [|a l IH]; intros H; simpl; [reflexivity|].
  rewrite (H a (or_introl eq_refl)). simpl. apply IH. intros; apply H.
  by right.
Qed.

(** [print_board] reads inside a board of [size * size] cells; with a size
    of zero its [range] has a step of zero. *)
Lemma print_board_returns (board : list string) (size : Z)
    (inputs : list line) :
  Z.of_nat (length board) = size * size →
  print_board board size inputs =
  if size =? 0 then Fails ValueError else Returns tt inputs.
Proof.
  intros Hlen. unfold print_board, range_step, io_bind.
  destruct (Z.eqb_spec size 0) as [|Hne]; [reflexivity|].
  destruct (Z.ltb_spec 0 size) as [Hpos|Hneg]; unfold io_ret, lift.
  - rewrite for_each_ok; [reflexivity|].
    intros row (k & <- & Hk%in_range)%in_map_iff.
    apply for_each_ok. intros col Hcol%in_range.
    pose proof (Z.mul_div_le (size * size - 0 + size - 1) size Hpos) as Hq.
    set (q := (size * size - 0 + size - 1) / size) in *.
    assert (size * (k + 1) ≤ size * q) by nia.
    assert (k < size) by nia.
    destruct (getitem_inside board (0 + k * size + col)) as (x & _ & ->);
      [nia|reflexivity].
  - rewrite (range_empty 0 ((0 - size * size - size - 1) / - size));
      [reflexivity|].
    apply Z.lt_succ_r. apply Z.div_lt_upper_bound; nia.
Qed.

Lemma get_player_move_spec (board : list string) (player : string)
    (size : Z) (inputs : list line) :
  size * size ≤ Z.of_nat (length board) →
  match get_player_move board player size inputs with
  | Returns idx unread =>
      0 ≤ idx < size * size ∧
      (∃ v, board !! Z.to_nat idx = Some v ∧
            v ≠ "X"%string ∧ v ≠ "O"%string) ∧
      (length unread < length inputs)%nat
  | Fails e => e = EOFError ∨ e = ValueError
  | Hangs => False
  end.
Proof.
  intros Hlen. induction inputs as [|move rest IH]; simpl; [by left|].
  assert (Hrest :
    match get_player_move board player size rest with
    | Returns idx unread =>
        0 ≤ idx < size * size ∧
        (∃ v, board !! Z.to_nat idx = Some v ∧
              v ≠ "X"%string ∧ v ≠ "O"%string) ∧
        (length unread < S (length rest))%nat
    | Fails e => e = EOFError ∨ e = ValueError
    | Hangs => False
    end).
  { destruct (get_player_move board player size rest); [|done..].
    destruct IH as (? & ? & ?). repeat split; [lia..|done|lia]. }
  destruct move as [|n|]; [exact Hrest| |by right].
  destruct (Z.leb_spec 1 (Z.of_N n)); [|exact Hrest].
  destruct (Z.ltb_spec (Z.of_N n) (size * size + 1)); [|exact Hrest].
  simpl.
  destruct (getitem_inside board (Z.of_N n - 1)) as (v & Hv & ->); [lia|].
  case_bool_decide as HX; [exact Hrest|].
  case_bool_decide as HO; [exact Hrest|]. simpl.
  split; [lia|]. split; [eauto|lia].
Qed.



(** ** Positions *)

Lemma count_mark_insert_same (mark : string) (board : list string)
    (i : nat) (v : string) :
  board !! i = Some v → v ≠ mark →
  count_mark mark (<[i := mark]> board) = S (count_mark mark board).
Proof.
  unfold count_mark. revert i. induction board as [|x board IH];
    intros i Hi Hv; [discriminate|].
  destruct i as [|i]; simpl in *.
  - injection Hi as ->. rewrite bool_decide_eq_true_2 by done.
    by rewrite bool_decide_eq_false_2 by done.
  - case_bool_decide; simpl; by rewrite (IH i).
Qed.

Lemma count_mark_insert_other (mark p : string) (board : list string)
    (i : nat) (v : string) :
  board !! i = Some v → v ≠ mark → p ≠ mark →
  count_mark mark (<[i := p]> board) = count_mark mark board.
Proof.
  unfold count_mark. revert i. induction board as [|x board IH];
    intros i Hi Hv Hp; [discriminate|].
  destruct i as [|i]; simpl in *.
  - injection Hi as ->. by rewrite !bool_decide_eq_false_2 by done.
  - case_bool_decide; simpl; by rewrite (IH i).
Qed.

(** A mark of one player completes no line of the other. *)
Lemma other_mark_no_new_win (self : TicTacToeAdapter) (board : list string)
    (idx : nat) (p q : string) :
  Z.of_nat (length board) = size self * size self →
  p ≠ q →
  check_winner board q (size self) (to_win self) = Ok false →
  check_winner (<[idx := p]> board) q (size self) (to_win self) = Ok false.
Proof.
  intros Hlen Hpq Hq.
  destruct (check_winner_decides self board q Hlen) as (b & Hb & Hiff).
  rewrite Hq in Hb. injection Hb as <-.
  destruct (check_winner_decides self (<[idx := p]> board) q)
    as (b' & -> & Hiff'); [by rewrite length_insert|].
  destruct b'; [|reflexivity].
  destruct (proj1 Hiff' eq_refl) as (line & Hline & Hdone).
  assert (false = true); [|done]. apply Hiff. exists line.
  split; [exact Hline|]. intros i Hi. specialize (Hdone i Hi).
  unfold holds in *.
  destruct (decide (idx = Z.to_nat i)) as [->|Hne].
  - pose proof (lookup_lt_Some _ _ _ Hdone) as Hlt.
    rewrite length_insert in Hlt.
    rewrite list_lookup_insert_eq in Hdone by done. congruence.
  - by rewrite list_lookup_insert_ne in Hdone.
Qed.

Lemma to_move_succ (t : nat) :
  to_move (S t) = if Nat.even t then "O"%string else "X"%string.
Proof.
  unfold to_move. rewrite Nat.even_succ, <- Nat.negb_even.
  by destruct (Nat.even t).
Qed.

(** A turn: the player to move marks a free cell. The board is again a
    position, the other player has still no line, and the game goes on
    unless the mover has now a line. *)
Lemma play_turn (size : Z) (t : nat) (board : list string) (idx : Z) :
  in_play size t board →
  In idx (get_moves (xo size) board true) →
  ∃ board' won,
    setitem board idx (to_move t) = Ok board' ∧
    check_winner board' (to_move t) size TO_WIN = Ok won ∧
    position size (S t) board' ∧
    check_winner board' (to_move (S t)) size TO_WIN = Ok false.
Proof.
  intros [(Hlen & Hfree & Hsum & Hdiff) [HX HO]] Hidx.
  destruct (free_cells_after_move (xo size) board idx
              (negb (Nat.even t))) as (board' & Hset & _ & Hcount).
  { by destruct (Nat.even t). }
  assert (Hp : (if negb (Nat.even t) then "O"%string else "X"%string)
               = to_move t) by (unfold to_move; by destruct (Nat.even t)).
  unfold apply_move in Hset. simpl in Hset. rewrite Hp in Hset.
  pose proof (setitem_length _ _ _ _ Hset) as Hlen'.
  apply (get_moves_cells (xo size)) in Hidx as (v & H0 & Hv & HvX & HvO).
  simpl in HvX, HvO.
  pose proof (lookup_lt_Some _ _ _ Hv) as Hlt.
  rewrite setitem_inside in Hset by lia. injection Hset as <-.
  assert (Hlen'' : Z.of_nat (length (<[Z.to_nat idx := to_move t]> board))
                   = size * size)
    by (rewrite Hlen'; exact Hlen).
  destruct (check_winner_decides (xo size)
              (<[Z.to_nat idx := to_move t]> board) (to_move t) Hlen'')
    as (won & Hwon & _).
  eexists _, won. split; [apply setitem_inside; lia|].
  split; [exact Hwon|]. split.
  - split; [by rewrite Hlen'|]. split.
    + replace (get_moves (xo size) _ true)
        with (get_moves (xo size) (<[Z.to_nat idx := to_move t]> board)
                (negb (negb (Nat.even t)))) by (by destruct (Nat.even t)).
      replace (get_moves (xo size) board true)
        with (get_moves (xo size) board (negb (Nat.even t))) in Hfree
        by (by destruct (Nat.even t)).
      lia.
    + rewrite Nat.even_succ, <- Nat.negb_even. unfold to_move.
      destruct (Nat.even t); simpl.
      * rewrite (count_mark_insert_same "X" board _ v Hv HvX).
        rewrite (count_mark_insert_other "O" "X" board _ v Hv HvO)
          by done. lia.
      * rewrite (count_mark_insert_same "O" board _ v Hv HvO).
        rewrite (count_mark_insert_other "X" "O" board _ v Hv HvX)
          by done. lia.
  - rewrite to_move_succ. unfold to_move.
    destruct (Nat.even t);
      apply (other_mark_no_new_win (xo size)); done.
Qed.

(** ** The two loops *)

Lemma range_nonempty (lo hi turn : Z) (rest : list Z) :
  turn :: rest = range lo hi → lo < hi ∧ turn = lo ∧ rest = range (lo + 1) hi.
Proof.
  intros H. destruct (Z.lt_ge_cases lo hi) as [Hlt|Hge].
  - rewrite range_cons in H by done. injection H as -> ->. done.
  - rewrite range_empty in H by lia. discriminate.
Qed.

Lemma free_cell_is_move (size : Z) (board : list string) (idx : Z) :
  0 ≤ idx →
  (∃ v, board !! Z.to_nat idx = Some v ∧ v ≠ "X"%string ∧ v ≠ "O"%string) →
  In idx (get_moves (xo size) board true).
Proof.
  intros H0 (v & Hv & HX & HO). apply get_moves_cells. exists v. done.
Qed.

(** The end of a game whose last turn was a win of the mover. *)
Lemma game_over_win (size : Z) (t : nat) (board : list string) :
  position size (S t) board →
  check_winner board (to_move t) size TO_WIN = Ok true →
  check_winner board (to_move (S t)) size TO_WIN = Ok false →
  game_over size (board, Wins (to_move t)).
Proof.
  intros (Hlen & _ & _ & Hdiff) Hwon Hother. split; [exact Hlen|]. simpl.
  split; [|exact Hwon].
  rewrite to_move_succ in Hother. rewrite Nat.even_succ, <- Nat.negb_even in Hdiff.
  unfold to_move in *. destruct (Nat.even t); simpl in Hdiff.
  - left. split; [done|]. split; [lia|done].
  - right. split; [done|]. split; [lia|done].
Qed.

(** The end of a game after the last turn. *)
Lemma game_over_draw (size : Z) (t : nat) (board : list string) :
  in_play size t board → size * size ≤ Z.of_nat t →
  game_over size (board, Draw).
Proof.
  intros [(Hlen & Hfree & _ & Hdiff) [HX HO]] Ht. split; [exact Hlen|]. simpl.
  split.
  - destruct (get_moves (xo size) board true); [done|]. simpl in Hfree. lia.
  - split; [destruct (Nat.even t); lia|done].
Qed.

Lemma in_play_next (size : Z) (t : nat) (board : list string) :
  position size (S t) board →
  check_winner board (to_move t) size TO_WIN = Ok false →
  check_winner board (to_move (S t)) size TO_WIN = Ok false →
  in_play size (S t) board.
Proof.
  intros Hpos H1 H2. split; [exact Hpos|].
  rewrite to_move_succ in H2. unfold to_move in *.
  by destruct (Nat.even t).
Qed.

Lemma multiplayer_loop_over (size : Z) (turns : list Z) :
  ∀ (t : nat) (board : list string) (inputs : list line),
    turns = range (Z.of_nat t) (size * size) →
    in_play size t board →
    match multiplayer_loop size turns board (to_move t) inputs with
    | Returns end_ _ => game_over size end_
    | Fails e => e = EOFError ∨ e = ValueError
    | Hangs => False
    end.
Proof.
  induction turns as [|turn turns IH]; intros t board inputs Hturns Hplay.
  - pose proof Hplay as [(Hlen & _) _].
    simpl. unfold io_bind. rewrite print_board_returns by done.
    destruct (size =? 0); [by right|]. simpl.
    apply (game_over_draw size t board Hplay).
    destruct (Z.lt_ge_cases (Z.of_nat t) (size * size)) as [Hlt|]; [|done].
    rewrite range_cons in Hturns by done. discriminate.
  - apply range_nonempty in Hturns as (Hlt & _ & Hrest).
    pose proof Hplay as [(Hlen & _) _].
    assert (Hsize : (size =? 0) = false) by (apply Z.eqb_neq; nia).
    simpl. unfold io_bind at 1. rewrite print_board_returns, Hsize by done.
    unfold io_bind at 1.
    pose proof (get_player_move_spec board (to_move t) size inputs
                  ltac:(lia)) as Hmove.
    destruct (get_player_move board (to_move t) size inputs)
      as [idx unread|e|]; [|done..].
    destruct Hmove as (Hidx & Hcell & _).
    destruct (play_turn size t board idx Hplay)
      as (board' & won & Hset & Hwon & Hpos & Hother).
    { apply free_cell_is_move; [lia|done]. }
    pose proof Hpos as (Hlen' & _).
    unfold io_bind, lift. rewrite Hset, Hwon.
    destruct won.
    + rewrite print_board_returns, Hsize by done. unfold io_ret.
      by apply game_over_win.
    + replace (if bool_decide (to_move t = "X"%string)
               then "O"%string else "X"%string) with (to_move (S t)).
      2:{ rewrite to_move_succ. unfold to_move. by destruct (Nat.even t). }
      apply IH.
      * rewrite Hrest. f_equal. lia.
      * by apply in_play_next.
Qed.

Lemma count_mark_no_mark (self : TicTacToeAdapter) (mark : string)
    (l : list string) :
  (∀ v, In v l → is_mark self v = false) →
  mark = human self ∨ mark = computer self →
  count_mark mark l = 0%nat.
Proof.
  intros Hfree Hmark. unfold count_mark.
  induction l as [|v l IHl]; [reflexivity|]. simpl.
  case_bool_decide as Hv.
  - specialize (Hfree v (or_introl eq_refl)). unfold is_mark in Hfree.
    apply orb_false_iff in Hfree as [H1 H2].
    apply bool_decide_eq_false in H1, H2. destruct Hmark; congruence.
  - apply IHl. intros; apply Hfree; by right.
Qed.

(** The initial board is a position of turn 0 nobody has won. *)
Lemma in_play_start (size : Z) : in_play size 0 (create_board size).
Proof.
  pose proof (length_create_board size) as Hlen.
  assert (Hfree : ∀ v, In v (create_board size) → is_mark (xo size) v = false).
  { intros v. by apply create_board_no_mark. }
  split; [split; [exact Hlen|split]|].
  - rewrite (create_board_moves (xo size)), length_range by done. nia.
  - rewrite !(count_mark_no_mark (xo size)) by auto. done.
  - split; apply (no_mark_no_winner (xo size)); simpl; auto;
      unfold TO_WIN; lia.
Qed.

(** X16: a game of [multiplayer] ends fairly. Whatever is typed, it raises
    nothing but the [EOFError] of an input that ends and a [ValueError]
    (digits [int] rejects, or a size of zero); and when it returns, the
    board has [size * size] cells, "X" has as many marks as "O" or one
    more, a win is announced for the player who moved last and has a
    completed line while the other has none, and a draw is announced on a
    full board on which nobody has a completed line. *)
Theorem multiplayer_ends_fairly (size : Z) (inputs : list line) :
  match multiplayer size inputs with
  | Returns end_ _ => game_over size end_
  | Fails e => e = EOFError ∨ e = ValueError
  | Hangs => False
  end.
Proof.
  unfold multiplayer.
  apply (multiplayer_loop_over size _ 0%nat (create_board size) inputs);
    [reflexivity|apply in_play_start].
Qed.

(** A game of three turns on the 3x3 board that "X" cannot win yet. *)
Example multiplayer_first_row :
  multiplayer 3 [Number 1; Number 4; NotDigits; Number 2; Number 2;
                 Number 5; Number 3; Number 9] =
  Returns (["X"; "X"; "X"; "O"; "O"; "6"; "7"; "8"; "9"]%string, Wins "X")
          [Number 9].
Proof. reflexivity. Qed.

Lemma turn_parity (t : nat) : (Z.of_nat t mod 2 =? 0) = Nat.even t.
Proof.
  destruct (Nat.even t) eqn:E.
  - apply Nat.even_spec in E as [k ->]. apply Z.eqb_eq.
    replace (Z.of_nat (2 * k)) with (Z.of_nat k * 2) by lia.
    by apply Z.mod_mul.
  - rewrite <- Nat.negb_odd in E. apply negb_false_iff in E.
    apply Nat.odd_spec in E as [k ->]. apply Z.eqb_neq.
    replace (Z.of_nat (2 * k + 1)) with (1 + Z.of_nat k * 2) by lia.
    by rewrite Z.mod_add.
Qed.

(** In a position nobody has won, before the last turn, the computer's
    search returns a free cell. *)
Lemma best_move_in_play (fuel : nat) (size depth : Z) (t : nat)
    (board : list string) :
  in_play size t board → Z.of_nat t < size * size → depth ≠ 0 →
  size * size < Z.of_nat fuel →
  ∃ move, best_move fuel (xo size) board depth = Ok (Some move) ∧
          In move (get_moves (xo size) board true).
Proof.
  intros [(Hlen & Hfree & _) [HX HO]] Ht Hd Hfuel.
  destruct fuel as [|fuel]; [lia|].
  assert (Ht' : is_terminal (xo size) board = Ok false).
  { destruct (is_terminal_value (xo size) board Hlen)
      as (wh & wc & Hwh & Hwc & ->).
    simpl in Hwh, Hwc. rewrite HX in Hwh. rewrite HO in Hwc.
    injection Hwh as <-. injection Hwc as <-. simpl. f_equal.
    destruct (forallb (is_mark (xo size)) board) eqn:E; [|reflexivity].
    apply (no_moves_board_full (xo size) board true) in E.
    rewrite E in Hfree. simpl in Hfree. lia. }
  destruct (best_move_lowest_index (xo size) fuel board depth Hlen Hd Ht')
    as (move & best & Hr & Hin & _); [lia|].
  eauto.
Qed.

Lemma singleplayer_loop_over (fuel : nat) (pick pick' : Z → nat)
    (size depth : Z) (turns : list Z) :
  (size ≠ 0 → depth ≠ 0) →
  size * size < Z.of_nat fuel →
  ∀ (t : nat) (board : list string) (inputs : list line),
    turns = range (Z.of_nat t) (size * size) →
    in_play size t board →
    match singleplayer_loop fuel pick (xo size) size depth "X" "O"
            turns board inputs with
    | Returns end_ _ => game_over size end_
    | Fails e => e = EOFError ∨ e = ValueError
    | Hangs => False
    end ∧
    singleplayer_loop fuel pick' (xo size) size depth "X" "O"
      turns board inputs =
    singleplayer_loop fuel pick (xo size) size depth "X" "O"
      turns board inputs.
Proof.
  intros Hdepth Hfuel.
  induction turns as [|turn turns IH]; intros t board inputs Hturns Hplay.
  - pose proof Hplay as [(Hlen & _) _].
    simpl. unfold io_bind. rewrite print_board_returns by done.
    split; [|reflexivity].
    destruct (size =? 0); [by right|]. simpl.
    apply (game_over_draw size t board Hplay).
    destruct (Z.lt_ge_cases (Z.of_nat t) (size * size)) as [Hlt|]; [|done].
    rewrite range_cons in Hturns by done. discriminate.
  - apply range_nonempty in Hturns as (Hlt & -> & Hrest).
    pose proof Hplay as [(Hlen & _) _].
    assert (Hne : size ≠ 0) by nia.
    assert (Hsize : (size =? 0) = false) by (by apply Z.eqb_neq).
    specialize (Hdepth Hne).
    simpl. unfold io_bind, lift, io_ret.
    rewrite print_board_returns, Hsize, turn_parity by done.
    destruct (Nat.even t) eqn:Heven.
    + assert (Hp : to_move t = "X"%string)
        by (unfold to_move; by rewrite Heven).
      pose proof (get_player_move_spec board "X" size inputs
                    ltac:(lia)) as Hmove.
      destruct (get_player_move board "X" size inputs)
        as [idx unread|e|]; [|done..].
      destruct Hmove as (Hidx & Hcell & _).
      destruct (play_turn size t board idx Hplay)
        as (board' & won & Hset & Hwon & Hpos & Hother).
      { apply free_cell_is_move; [lia|done]. }
      pose proof Hpos as (Hlen' & _).
      rewrite Hp in Hset, Hwon. rewrite Hset, Hwon.
      destruct won.
      * rewrite print_board_returns, Hsize by done.
        split; [|reflexivity]. rewrite <- Hp. apply game_over_win; try done.
        by rewrite Hp.
      * apply (IH (S t)).
        -- rewrite Hrest. f_equal. lia.
        -- apply in_play_next; try done. by rewrite Hp.
    + assert (Hp : to_move t = "O"%string)
        by (unfold to_move; by rewrite Heven).
      destruct (Z.eqb_spec depth 0) as [|_]; [done|].
      destruct (best_move_in_play fuel size depth t board Hplay Hlt Hdepth
                  Hfuel) as (move & -> & Hin).
      destruct (play_turn size t board move Hplay Hin)
        as (board' & won & Hset & Hwon & Hpos & Hother).
      pose proof Hpos as (Hlen' & _).
      rewrite Hp in Hset, Hwon. simpl. rewrite Hset, Hwon.
      destruct won.
      * rewrite print_board_returns, Hsize by done.
        split; [|reflexivity]. rewrite <- Hp. apply game_over_win; try done.
        by rewrite Hp.
      * apply (IH (S t)).
        -- rewrite Hrest. f_equal. lia.
        -- apply in_play_next; try done. by rewrite Hp.
Qed.

Lemma singleplayer_depth_nonzero (size : Z) :
  size ≠ 0 →
  (if size <=? 3 then size * size
   else if size <=? 5 then 4 else if size <=? 7 then 3 else 2) ≠ 0.
Proof.
  intros Hne. destruct (size <=? 3); [nia|].
  destruct (size <=? 5); [done|]. by destruct (size <=? 7).
Qed.

(** X17: a game of [singleplayer] ends fairly. With fuel for the searches
    it raises nothing but the [EOFError] of an input that ends and a
    [ValueError] (digits [int] rejects, or a size of zero), the searches of
    the computer return, and when the game returns, the board has
    [size * size] cells, "X" has as many marks as "O" or one more, "You
    win" or "AI wins" is announced for the side that moved last and has a
    completed line while the other has none, and a draw is announced on a
    full board on which nobody has a completed line. *)
Theorem singleplayer_ends_fairly (fuel : nat) (pick : Z → nat)
    (size depth : Z) (inputs : list line) :
  size * size < Z.of_nat fuel →
  match singleplayer fuel pick size depth inputs with
  | Returns end_ _ => game_over size end_
  | Fails e => e = EOFError ∨ e = ValueError
  | Hangs => False
  end.
Proof.
  intros Hfuel. unfold singleplayer.
  apply (singleplayer_loop_over fuel pick pick size _ _
           (singleplayer_depth_nonzero size) Hfuel 0%nat);
    [reflexivity|apply in_play_start].
Qed.

Lemma singleplayer_ends_fairly_witness :
  match singleplayer 5 (fun _ => 0%nat) 2 0 [Number 1; Number 4] with
  | Returns end_ _ => game_over 2 end_
  | Fails e => e = EOFError ∨ e = ValueError
  | Hangs => False
  end.
Proof.
  apply (singleplayer_ends_fairly 5 (fun _ => 0%nat) 2 0
           [Number 1; Number 4]).
  simpl. lia.
Defined.

(** X18: in [singleplayer] neither the [depth] argument nor the random
    generator has any effect: the depth is replaced by one that depends on
    the size only and is not zero, and in a game [best_move] never returns
    [None], so [get_computer_move] is never reached. *)
Theorem singleplayer_ignores_depth_and_random (fuel : nat)
    (pick pick' : Z → nat) (size depth depth' : Z) (inputs : list line) :
  size * size < Z.of_nat fuel →
  singleplayer fuel pick' size depth' inputs =
  singleplayer fuel pick size depth inputs.
Proof.
  intros Hfuel. unfold singleplayer.
  apply (singleplayer_loop_over fuel pick pick' size _ _
           (singleplayer_depth_nonzero size) Hfuel 0%nat);
    [reflexivity|apply in_play_start].
Qed.

Lemma singleplayer_ignores_depth_and_random_witness :
  singleplayer 5 (fun _ => 1%nat) 2 7 [Number 1; Number 4] =
  singleplayer 5 (fun _ => 0%nat) 2 0 [Number 1; Number 4].
Proof.
  apply (singleplayer_ignores_depth_and_random 5
           (fun _ => 0%nat) (fun _ => 1%nat) 2 0 7 [Number 1; Number 4]).
  simpl. lia.
Defined.

(** X19: [print_board] on a board of [size * size] cells reads no cell
    outside the board and consumes no input; with a size of zero it raises
    [ValueError], the step of its [range] being zero. *)
Theorem print_board_reads_inside (board : list string) (size : Z)
    (inputs : list line) :
  Z.of_nat (length board) = size * size →
  print_board board size inputs =
  if size =? 0 then Fails ValueError else Returns tt inputs.
Proof. apply print_board_returns. Qed.

Lemma print_board_reads_inside_witness :
  print_board [] 0 [NotDigits] = Fails ValueError ∧
  print_board drawn 3 [NotDigits] = Returns tt [NotDigits].
Proof.
  split.
  - apply (print_board_reads_inside [] 0 [NotDigits]). reflexivity.
  - apply (print_board_reads_inside drawn 3 [NotDigits]). reflexivity.
Defined.
